(** * streaming_multipart.py: a shallow embedding and its verification

    The development follows [src/streaming_multipart.py] (Python 3):
    the residual read buffer [_Buff], the boundary-aware body reader
    [_PartReader.read], the driver [MultipartReader.next_part] and the
    [Part] objects it hands out.

    Python objects that are shared and mutated (the reader and the parts it
    returns) live in an explicit store, the [World]; a [Part] is referred to
    by its handle, so the reader's [current_part] and the caller's reference
    are the same object.  [while True] loops take a fuel argument and answer
    [OutOfFuel] when it is exhausted. *)

From Stdlib Require Import ZArith List Lia Bool.
From Stdlib Require Import Strings.Byte Strings.Ascii Strings.String.
From stdpp Require Import base list.

Import ListNotations.

#[local] Open Scope nat_scope.

(** ** Python values *)

Abbreviation bytes := (list byte).

(** A [bytes] literal written from a Rocq string. *)
Definition b (s : string) : bytes := list_byte_of_string s.

Definition CR : byte := x0d.
Definition LF : byte := x0a.
Definition CRLF : bytes := [CR; LF].

(** The three kinds of values the source compares with [==] and [in]:
    indexing a [bytes] object gives an [int], a literal between plain quotes
    is a [str], a literal with the [b] prefix is a [bytes]. *)
Inductive pyval : Type :=
| VInt (z : Z)
| VStr (s : string)
| VBytes (l : bytes).

Fixpoint bytes_eqb (x y : bytes) : bool :=
  match x, y with
  | [], [] => true
  | c :: x', e :: y' => Byte.eqb c e && bytes_eqb x' y'
  | _, _ => false
  end.

(** Python [==]: values of different types are never equal. *)
Definition py_eq (x y : pyval) : bool :=
  match x, y with
  | VInt a, VInt c => Z.eqb a c
  | VStr s, VStr t => String.eqb s t
  | VBytes l, VBytes m => bytes_eqb l m
  | _, _ => false
  end.

(** Python [x in (a, b, ...)]. *)
Definition py_in (x : pyval) (tuple : list pyval) : bool :=
  existsb (py_eq x) tuple.

(** Python [len] on [str] and [bytes]. *)
Definition py_len (v : pyval) : nat :=
  match v with
  | VInt _ => 0
  | VStr s => String.length s
  | VBytes l => length l
  end.

(** Python truthiness of [str] and [bytes]: empty is false. *)
Definition py_truthy (v : pyval) : bool :=
  match v with
  | VInt z => negb (Z.eqb z 0)
  | VStr s => negb (Nat.eqb (String.length s) 0)
  | VBytes l => negb (Nat.eqb (length l) 0)
  end.

(** The bytes carried by a value returned from a body read ([""] carries
    none). *)
Definition py_bytes (v : pyval) : bytes :=
  match v with
  | VBytes l => l
  | _ => []
  end.

(** [l[i]] for a [bytes] object [l] is an [int]. *)
Definition byte_index (x : byte) : pyval := VInt (Z.of_N (Byte.to_N x)).

(** Python slice bounds: a negative bound counts from the end, and every
    bound is clamped to the length. *)
Definition py_bound (n : Z) (len : nat) : nat :=
  if (n <? 0)%Z then Z.to_nat (Z.max 0 (Z.of_nat len + n))
  else Nat.min (Z.to_nat n) len.

(** [l[:n]] *)
Definition slice_to (n : Z) (l : bytes) : bytes :=
  take (py_bound n (length l)) l.

(** [l[n:]] *)
Definition slice_from (n : Z) (l : bytes) : bytes :=
  drop (py_bound n (length l)) l.

(** [l[lo:hi]] *)
Definition slice (lo hi : Z) (l : bytes) : bytes :=
  let i := py_bound lo (length l) in
  let j := py_bound hi (length l) in
  take (j - i) (drop i l).

(** [l.startswith(p)] *)
Fixpoint startswith (l p : bytes) {struct p} : bool :=
  match p, l with
  | [], _ => true
  | _ :: _, [] => false
  | y :: p', x :: l' => Byte.eqb x y && startswith l' p'
  end.

(** [l.find(sub)] scanning from offset [i]: the lowest offset at which
    [sub] occurs, or [-1]. *)
Fixpoint find_from (i : Z) (l sub : bytes) : Z :=
  if startswith l sub then i
  else match l with
       | [] => (-1)%Z
       | _ :: l' => find_from (i + 1)%Z l' sub
       end.

Definition find (l sub : bytes) : Z := find_from 0%Z l sub.

(** ** Module-level code *)

Definition BLOCK_SIZE : Z := 4096.

(** [skipLWSPChar]: the test [b[0] in (b" ", b"\t")] compares an [int] with
    two [bytes] objects. *)
Fixpoint skipLWSPChar (l : bytes) : bytes :=
  match l with
  | [] => []
  | x :: l' =>
      if py_in (byte_index x) [VBytes (b " "); VBytes [x09]]
      then skipLWSPChar l'
      else l
  end.

(** ** [_Buff]: the residual read buffer *)

Module Buff.

(** [_Buff(st)] holds a view on [st]. *)
Definition init (st : bytes) : bytes := st.

(** [read(n=None)]: the value returned and the buffer left. *)
Definition read (n : option Z) (buf : bytes) : bytes * bytes :=
  match n with
  | None => (buf, [])
  | Some n => (slice_to n buf, slice_from n buf)
  end.

End Buff.

(** ** The byte source: [io.BufferedReader] over an in-memory endpoint

    [buffered] are the bytes read ahead and not yet consumed, [raw] the
    bytes the endpoint has not delivered yet.  The endpoint delivers what is
    asked of it as long as it has bytes left, as [io.BytesIO] does. *)

Record BufferedReader : Type := mkBufferedReader {
  buffered : bytes;
  raw : bytes
}.

Definition DEFAULT_BUFFER_SIZE : nat := Z.to_nat 8192.

Arguments DEFAULT_BUFFER_SIZE : simpl never.

Module BufferedReader.

(** All the bytes not consumed yet, in stream order. *)
Definition unread (r : BufferedReader) : bytes := buffered r ++ raw r.

Definition open (stream : bytes) : BufferedReader :=
  {| buffered := []; raw := stream |}.

(** One read of the endpoint into the (empty) buffer. *)
Definition fill (r : BufferedReader) : BufferedReader :=
  {| buffered := take DEFAULT_BUFFER_SIZE (raw r);
     raw := drop DEFAULT_BUFFER_SIZE (raw r) |}.

(** [peek(n)]: the bytes read ahead when there are some, else the result
    of one read of the endpoint; the position does not move, and [n] does
    not bound the answer. *)
Definition peek (n : Z) (r : BufferedReader) : bytes * BufferedReader :=
  match buffered r with
  | [] => let r' := fill r in (buffered r', r')
  | _ :: _ => (buffered r, r)
  end.

(** [read(n)], [n >= 0]: served from the bytes read ahead when they
    suffice; otherwise whole blocks are read from the endpoint directly
    and the last partial block through the buffer. *)
Definition read (n : nat) (r : BufferedReader) : bytes * BufferedReader :=
  if n <=? length (buffered r) then
    (take n (buffered r),
     {| buffered := drop n (buffered r); raw := raw r |})
  else
    let remaining := n - length (buffered r) in
    let direct := (remaining / DEFAULT_BUFFER_SIZE) * DEFAULT_BUFFER_SIZE in
    let raw1 := drop direct (raw r) in
    let last := remaining - direct in
    if last =? 0 then
      (buffered r ++ take direct (raw r),
       {| buffered := []; raw := raw1 |})
    else
      let filled := take DEFAULT_BUFFER_SIZE raw1 in
      (buffered r ++ take direct (raw r) ++ take last filled,
       {| buffered := drop last filled;
          raw := drop DEFAULT_BUFFER_SIZE raw1 |}).

(** The first line of [l], newline included, and what follows it. *)
Fixpoint split_line (l : bytes) : option (bytes * bytes) :=
  match l with
  | [] => None
  | x :: l' =>
      if Byte.eqb x LF then Some ([x], l')
      else match split_line l' with
           | Some (ln, rest) => Some (x :: ln, rest)
           | None => None
           end
  end.

(** [readline] once the bytes read ahead hold no newline: refill and scan
    again, until a newline or the end of the stream. *)
Fixpoint readline_more (fuel : nat) (chunks rawbytes : bytes)
  : bytes * BufferedReader :=
  match fuel with
  | 0 => (chunks, {| buffered := []; raw := rawbytes |})
  | S fuel' =>
      let filled := take DEFAULT_BUFFER_SIZE rawbytes in
      let raw' := drop DEFAULT_BUFFER_SIZE rawbytes in
      match filled with
      | [] => (chunks, {| buffered := []; raw := raw' |})
      | _ :: _ =>
          match split_line filled with
          | Some (ln, rest) =>
              (chunks ++ ln, {| buffered := rest; raw := raw' |})
          | None => readline_more fuel' (chunks ++ filled) raw'
          end
      end
  end.

(** [readline()]: up to and including the next newline, or all that is
    left.  Every refill takes at least one byte off the endpoint, so
    [length (raw r) + 1] refills are enough. *)
Definition readline (r : BufferedReader) : bytes * BufferedReader :=
  match split_line (buffered r) with
  | Some (ln, rest) => (ln, {| buffered := rest; raw := raw r |})
  | None => readline_more (S (length (raw r))) (buffered r) (raw r)
  end.

End BufferedReader.

(** ** Text

    A [str] is the sequence of its code points. *)

Abbreviation str := (list N).

Definition in_range (lo hi : N) (x : byte) : bool :=
  ((lo <=? Byte.to_N x) && (Byte.to_N x <=? hi))%N.

(** The six payload bits of a continuation byte. *)
Definition low6 (x : byte) : N := (Byte.to_N x mod 64)%N.

(** The values the second byte of a sequence may take after the lead byte
    [x]: no overlong form, no surrogate, nothing above U+10FFFF. *)
Definition second_range (x : byte) : N * N :=
  let n := Byte.to_N x in
  if (n =? 224)%N then (160, 191)%N
  else if (n =? 237)%N then (128, 159)%N
  else if (n =? 240)%N then (144, 191)%N
  else if (n =? 244)%N then (128, 143)%N
  else (128, 191)%N.

(** [l.decode("utf-8", errors="ignore")]: the code points of the well-formed
    sequences of [l], of one byte (0x00..0x7F), two (lead 0xC2..0xDF),
    three (0xE0..0xEF) or four (0xF0..0xF4); a byte at which no
    well-formed sequence starts is dropped, and decoding goes on at the
    byte after it. *)
Fixpoint decode_utf8_ignore (l : bytes) : str :=
  match l with
  | [] => []
  | x0 :: l0 =>
      if in_range 0 127 x0 then Byte.to_N x0 :: decode_utf8_ignore l0
      else
        let '(lo, hi) := second_range x0 in
        match l0 with
        | [] => decode_utf8_ignore l0
        | x1 :: l1 =>
            if in_range 194 223 x0 && in_range lo hi x1 then
              ((Byte.to_N x0 mod 32) * 64 + low6 x1)%N :: decode_utf8_ignore l1
            else
              match l1 with
              | [] => decode_utf8_ignore l0
              | x2 :: l2 =>
                  if in_range 224 239 x0 && in_range lo hi x1
                     && in_range 128 191 x2 then
                    ((Byte.to_N x0 mod 16) * 4096 + low6 x1 * 64 + low6 x2)%N
                      :: decode_utf8_ignore l2
                  else
                    match l2 with
                    | [] => decode_utf8_ignore l0
                    | x3 :: l3 =>
                        if in_range 240 244 x0 && in_range lo hi x1
                           && in_range 128 191 x2 && in_range 128 191 x3 then
                          ((Byte.to_N x0 mod 8) * 262144 + low6 x1 * 4096
                           + low6 x2 * 64 + low6 x3)%N
                            :: decode_utf8_ignore l3
                        else decode_utf8_ignore l0
                    end
              end
        end
  end.

(** The text of the header line [hd], read with its newline. *)
Definition header_text (hd : bytes) : str := decode_utf8_ignore (hd ++ CRLF).

(** ** The store: the reader and the parts it has handed out *)

(** [header_lines] are the decoded lines [populate_headers] collects; the
    name/value mapping the [email] parser builds from them is not needed
    here.  [bytes_read] and [closed] are the attributes of the source. *)
Record Part : Type := mkPart {
  buf : bytes;
  bytes_read : Z;
  header_lines : list str;
  closed : bool
}.

Record MultipartReader : Type := mkMultipartReader {
  buf_reader : BufferedReader;
  nl : bytes;
  nl_dash_boundary : bytes;
  dash_boundary_dash : bytes;
  dash_boundary : bytes;
  dash_boundary_nl : bytes;
  parts_read : Z;
  current_part : option nat
}.

Record World : Type := mkWorld {
  mr : MultipartReader;
  heap : list Part
}.

Definition set_buf_reader (r : BufferedReader) (m : MultipartReader)
  : MultipartReader :=
  {| buf_reader := r;
     nl := nl m;
     nl_dash_boundary := nl_dash_boundary m;
     dash_boundary_dash := dash_boundary_dash m;
     dash_boundary := dash_boundary m;
     dash_boundary_nl := dash_boundary_nl m;
     parts_read := parts_read m;
     current_part := current_part m |}.

Definition set_nl (n nd : bytes) (m : MultipartReader) : MultipartReader :=
  {| buf_reader := buf_reader m;
     nl := n;
     nl_dash_boundary := nd;
     dash_boundary_dash := dash_boundary_dash m;
     dash_boundary := dash_boundary m;
     dash_boundary_nl := dash_boundary_nl m;
     parts_read := parts_read m;
     current_part := current_part m |}.

Definition set_parts_read (z : Z) (m : MultipartReader) : MultipartReader :=
  {| buf_reader := buf_reader m;
     nl := nl m;
     nl_dash_boundary := nl_dash_boundary m;
     dash_boundary_dash := dash_boundary_dash m;
     dash_boundary := dash_boundary m;
     dash_boundary_nl := dash_boundary_nl m;
     parts_read := z;
     current_part := current_part m |}.

Definition set_current_part (c : option nat) (m : MultipartReader)
  : MultipartReader :=
  {| buf_reader := buf_reader m;
     nl := nl m;
     nl_dash_boundary := nl_dash_boundary m;
     dash_boundary_dash := dash_boundary_dash m;
     dash_boundary := dash_boundary m;
     dash_boundary_nl := dash_boundary_nl m;
     parts_read := parts_read m;
     current_part := c |}.

(** [MultipartReader.__init__(stream, boundary)], [boundary] already
    encoded. *)
Definition MultipartReader_init (stream boundary : bytes) : MultipartReader :=
  let b0 := CRLF ++ b "--" ++ boundary ++ b "--" in
  let n := Z.of_nat (length b0) in
  {| buf_reader := BufferedReader.open stream;
     nl := slice_to 2 b0;
     nl_dash_boundary := slice_to (n - 2) b0;
     dash_boundary_dash := slice_from 2 b0;
     dash_boundary := slice 2 (n - 2) b0;
     dash_boundary_nl := b "--" ++ boundary ++ CRLF;
     parts_read := 0;
     current_part := None |}.

Definition World_init (stream boundary : bytes) : World :=
  {| mr := MultipartReader_init stream boundary; heap := [] |}.

(** [is_final_boundary] *)
Definition is_final_boundary (m : MultipartReader) (line : bytes) : bool :=
  if negb (startswith line (dash_boundary_dash m)) then false else true.

(** [is_boundary_delimeter_line]: the answer and the reader, whose newline
    tokens the method may shorten.  [rest[0] == "\n"] compares an [int]
    with a [str]. *)
Definition is_boundary_delimeter_line (m : MultipartReader) (line : bytes)
  : bool * MultipartReader :=
  if startswith line (dash_boundary m) then
    let rest := slice_from (Z.of_nat (length (dash_boundary m))) line in
    let rest := skipLWSPChar rest in
    let m' :=
      if (parts_read m =? 0)%Z && (length rest =? 1) &&
         match rest with
         | x :: _ => py_eq (byte_index x) (VStr (String (ascii_of_nat 10) EmptyString))
         | [] => false
         end
      then set_nl (slice_from 1 (nl m)) (slice_from 1 (nl_dash_boundary m)) m
      else m in
    (bytes_eqb rest (nl m'), m')
  else (false, m).

(** [peek_buffer_is_empty_part] *)
Definition peek_buffer_is_empty_part (m : MultipartReader) (peek : bytes)
  : bool :=
  if startswith peek (dash_boundary_dash m) then
    let rest := slice_from (Z.of_nat (length (dash_boundary_dash m))) peek in
    let rest := skipLWSPChar rest in
    startswith rest (nl m) || (length rest =? 0)
  else if negb (startswith peek (dash_boundary m)) then false
  else
    let rest := slice_from (Z.of_nat (length (dash_boundary m))) peek in
    let rest := skipLWSPChar rest in
    startswith rest (nl m).

(** ** Outcomes of the stateful operations *)

Inductive exn : Type :=
| IOError (msg : string)
| Exception (msg : string) (line : bytes).

(** [Ret] is a normal return and [Raise] a raised exception, both with the
    store they leave; [OutOfFuel] is a loop that did not finish within the
    fuel given; [NoSuchPart] answers a handle that names no object of the
    store, which no Python reference can be. *)
Inductive outcome (A : Type) : Type :=
| Ret (a : A) (w : World)
| Raise (e : exn) (w : World)
| OutOfFuel
| NoSuchPart.

Arguments Ret {A} a w.
Arguments Raise {A} e w.
Arguments OutOfFuel {A}.
Arguments NoSuchPart {A}.

Definition bind {A B : Type} (o : outcome A) (k : A -> World -> outcome B)
  : outcome B :=
  match o with
  | Ret a w => k a w
  | Raise e w => Raise e w
  | OutOfFuel => OutOfFuel
  | NoSuchPart => NoSuchPart
  end.

Definition PartAlreadyClosed : exn := IOError "Part already closed".

Definition set_part (h : nat) (p : Part) (w : World) : World :=
  {| mr := mr w; heap := <[h := p]> (heap w) |}.

Definition set_reader (r : BufferedReader) (w : World) : World :=
  {| mr := set_buf_reader r (mr w); heap := heap w |}.

Definition set_buf (l : bytes) (p : Part) : Part :=
  {| buf := l; bytes_read := bytes_read p;
     header_lines := header_lines p; closed := closed p |}.

Definition set_closed (c : bool) (p : Part) : Part :=
  {| buf := buf p; bytes_read := bytes_read p;
     header_lines := header_lines p; closed := c |}.

Definition add_header_line (l : str) (p : Part) : Part :=
  {| buf := buf p; bytes_read := bytes_read p;
     header_lines := header_lines p ++ [l]; closed := closed p |}.

(** The [finally] clause of [_PartReader.read]:
    [if n is not None: p.bytes_read += len(n)]. *)
Definition finally_count (n : pyval) (p : Part) : Part :=
  {| buf := buf p; bytes_read := (bytes_read p + Z.of_nat (py_len n))%Z;
     header_lines := header_lines p; closed := closed p |}.

(** [Part.__init__] *)
Definition Part_init : Part :=
  {| buf := Buff.init []; bytes_read := 0; header_lines := []; closed := false |}.

(** ** [_PartReader.read(d)]

    [n] is the local variable of the source: it still holds [""] when the
    method returns from inside the [try] before the last assignment. *)
Definition _PartReader_read (h : nat) (d : Z) (w : World) : outcome pyval :=
  match heap w !! h with
  | None => NoSuchPart
  | Some p =>
      let n := VStr EmptyString in
      if (Z.of_nat (length (buf p)) >=? d)%Z then
        let '(ret, buf1) := Buff.read (Some d) (buf p) in
        Ret (VBytes ret) (set_part h (finally_count n (set_buf buf1 p)) w)
      else
        let '(peek, r1) := BufferedReader.peek BLOCK_SIZE (buf_reader (mr w)) in
        if (bytes_read p =? 0)%Z && peek_buffer_is_empty_part (mr w) peek then
          Ret (VStr EmptyString) (set_part h (finally_count n p) (set_reader r1 w))
        else
          let idx := find peek (dash_boundary (mr w)) in
          let safe_count :=
            (Z.of_nat (length peek) - Z.of_nat (length (dash_boundary (mr w))))%Z in
          let '(n_copy, buf2, r2) :=
            if negb (idx =? -1)%Z then (idx, buf p, r1)
            else if (safe_count >? 0)%Z then (safe_count, buf p, r1)
            else if (idx =? -1)%Z && (safe_count =? 0)%Z then
              let '(data, r) := BufferedReader.read (length peek) r1 in
              (0%Z, Buff.init (fst (Buff.read None (buf p)) ++ data), r)
            else (0%Z, buf p, r1) in
          let '(buf3, r3) :=
            if (n_copy >? 0)%Z then
              let '(data, r) := BufferedReader.read (Z.to_nat n_copy) r2 in
              (Buff.init (fst (Buff.read None buf2) ++ data), r)
            else (buf2, r2) in
          let '(ret, buf4) := Buff.read (Some d) buf3 in
          let n := VBytes ret in
          Ret n (set_part h (finally_count n (set_buf buf4 p)) (set_reader r3 w))
  end.

(** ** [Part] *)

(** The loop of [Part.read()] without a length:
    [chunk = self.r.read(BLOCK_SIZE)] until [not chunk or len(chunk) == 0],
    with [data += chunk] in between. *)
Fixpoint Part_read_all (fuel : nat) (h : nat) (data : bytes) (w : World)
  : outcome pyval :=
  match fuel with
  | 0 => OutOfFuel
  | S fuel' =>
      bind (_PartReader_read h BLOCK_SIZE w) (fun chunk w1 =>
        if negb (py_truthy chunk) || (py_len chunk =? 0)
        then Ret (VBytes data) w1
        else Part_read_all fuel' h (data ++ py_bytes chunk) w1)
  end.

(** [Part.read(d=None)] *)
Definition Part_read (fuel : nat) (h : nat) (d : option Z) (w : World)
  : outcome pyval :=
  match heap w !! h with
  | None => NoSuchPart
  | Some p =>
      if closed p then Raise PartAlreadyClosed w
      else match d with
           | None => Part_read_all fuel h [] w
           | Some d => _PartReader_read h d w
           end
  end.

(** The loop of [Part.close]. *)
Fixpoint Part_close_loop (fuel : nat) (h : nat) (w : World) : outcome unit :=
  match fuel with
  | 0 => OutOfFuel
  | S fuel' =>
      bind (Part_read fuel' h (Some BLOCK_SIZE) w) (fun chunk w1 =>
        if negb (py_truthy chunk) || (py_len chunk =? 0)
        then Ret tt w1
        else Part_close_loop fuel' h w1)
  end.

(** [Part.close] *)
Definition Part_close (fuel : nat) (h : nat) (w : World) : outcome unit :=
  bind (Part_close_loop fuel h w) (fun _ w1 =>
    match heap w1 !! h with
    | None => NoSuchPart
    | Some p => Ret tt (set_part h (set_closed true p) w1)
    end).

(** [Part.populate_headers]: lines are collected, decoded, up to a blank
    line or the end of the stream. *)
Fixpoint populate_headers (fuel : nat) (h : nat) (w : World) : outcome unit :=
  match fuel with
  | 0 => OutOfFuel
  | S fuel' =>
      let '(line, r1) := BufferedReader.readline (buf_reader (mr w)) in
      let w1 := set_reader r1 w in
      if py_in (VBytes line) [VBytes CRLF; VBytes [LF]; VBytes []]
      then Ret tt w1
      else
        match heap w1 !! h with
        | None => NoSuchPart
        | Some p =>
            populate_headers fuel' h
              (set_part h (add_header_line (decode_utf8_ignore line) p) w1)
        end
  end.

(** [_new_part(mr)]: the new object gets the next free handle. *)
Definition _new_part (fuel : nat) (w : World) : outcome nat :=
  let bp := length (heap w) in
  let w1 := {| mr := mr w; heap := heap w ++ [Part_init] |} in
  bind (populate_headers fuel bp w1) (fun _ w2 => Ret bp w2).

(** ** [MultipartReader.next_part] *)

(** The [while True] loop; [None] is the terminal indicator. *)
Fixpoint next_part_loop (fuel : nat) (expect_new_part : bool) (w : World)
  : outcome (option nat) :=
  match fuel with
  | 0 => OutOfFuel
  | S fuel' =>
      let '(line, r1) := BufferedReader.readline (buf_reader (mr w)) in
      let '(is_EOF, r2) := BufferedReader.peek 1 r1 in
      let w2 := set_reader r2 w in
      if (length is_EOF =? 0) && is_final_boundary (mr w2) line then Ret None w2
      else
        let '(is_delim, m3) := is_boundary_delimeter_line (mr w2) line in
        let w3 := {| mr := m3; heap := heap w2 |} in
        if is_delim then
          let w4 := {| mr := set_parts_read (parts_read m3 + 1)%Z m3;
                       heap := heap w3 |} in
          bind (_new_part fuel' w4) (fun bp w5 =>
            Ret (Some bp)
                {| mr := set_current_part (Some bp) (mr w5); heap := heap w5 |})
        else if is_final_boundary (mr w3) line then Ret None w3
        else if expect_new_part then
          Raise (Exception "expecting a new Part, got line" line) w3
        else if (parts_read (mr w3) =? 0)%Z then
          next_part_loop fuel' expect_new_part w3
        else if bytes_eqb line (nl (mr w3)) then
          next_part_loop fuel' true w3
        else Raise (Exception "Unexpected line in next_part():" line) w3
  end.

(** [if self.current_part != None: self.current_part.close()] *)
Definition close_current_part (fuel : nat) (w : World) : outcome unit :=
  match current_part (mr w) with
  | Some h => Part_close fuel h w
  | None => Ret tt w
  end.

Definition next_part (fuel : nat) (w : World) : outcome (option nat) :=
  bind (close_current_part fuel w) (fun _ w1 => next_part_loop fuel false w1).

(** ** Callers and test data *)

(** A caller that reads a body in chunks of [d] bytes:
    [chunk = part.read(d)] until the chunk is empty, collecting the chunks. *)
Fixpoint read_in_chunks (fuel : nat) (h : nat) (d : Z) (data : bytes) (w : World)
  : outcome bytes :=
  match fuel with
  | 0 => OutOfFuel
  | S fuel' =>
      bind (Part_read fuel' h (Some d) w) (fun chunk w1 =>
        if negb (py_truthy chunk) then Ret data w1
        else read_in_chunks fuel' h d (data ++ py_bytes chunk) w1)
  end.

(** The wire format: every segment is a delimiter line, its header lines, a
    blank line and its payload; the newline after a payload belongs to the
    delimiter that follows; the final boundary ends the stream. *)
Fixpoint frame (boundary : bytes) (segments : list (list bytes * bytes)) : bytes :=
  match segments with
  | [] => b "--" ++ boundary ++ b "--" ++ CRLF
  | (hdrs, payload) :: segments' =>
      b "--" ++ boundary ++ CRLF
        ++ concat (map (fun hd => hd ++ CRLF) hdrs) ++ CRLF
        ++ payload ++ CRLF
        ++ frame boundary segments'
  end.

Definition XYZ : bytes := b "XYZ".

(** The two-part stream used as the running example: a field [a] with body
    [hello], a file field [b] with three raw bytes. *)
Definition scenario : bytes :=
  frame XYZ
    [([b "Content-Disposition: form-data; name=a"], b "hello");
     ([b "Content-Disposition: form-data; name=b; filename=f.bin"],
      [x00; x01; x02])].

(** A one-part stream whose payload holds the delimiter token in the middle
    of a line. *)
Definition embedded : bytes :=
  frame XYZ [([b "Content-Disposition: form-data; name=a"], b "a--XYZb")].

(** An LF-only stream. *)
Definition lf_only : bytes :=
  b "--XYZ" ++ [LF] ++ b "Content-Disposition: form-data; name=a" ++ [LF; LF]
    ++ b "hello" ++ [LF] ++ b "--XYZ--" ++ [LF].

(** The store an operation leaves, whether it returned or raised. *)
Definition world_of {A : Type} (o : outcome A) (dflt : World) : World :=
  match o with
  | Ret _ w => w
  | Raise _ w => w
  | _ => dflt
  end.

Definition scenario_0 : World := World_init scenario XYZ.

(** The running example after the first [next_part()]: part [a] is open. *)
Definition scenario_a : World := world_of (next_part 8 scenario_0) scenario_0.

(** ... after [read()] on part [a] and a second [next_part()]: part [b] is
    open. *)
Definition scenario_b : World :=
  let w := world_of (Part_read 8 0 None scenario_a) scenario_a in
  world_of (next_part 8 w) w.

(** ... after [read(3)] on part [b] and a third [next_part()], which returned
    the terminal indicator. *)
Definition scenario_done : World :=
  let w := world_of (Part_read 8 1 (Some 3%Z) scenario_b) scenario_b in
  world_of (next_part 8 w) w.

(** A stream that holds nothing but the final boundary line. *)
Definition final_only : bytes := b "--XYZ--" ++ CRLF.

(** ... after a first [next_part()], which returned the terminal
    indicator. *)
Definition final_only_done : World :=
  world_of (next_part 8 (World_init final_only XYZ)) (World_init final_only XYZ).

(** A one-part stream whose header block is followed at once by the final
    boundary. *)
Definition empty_body : bytes :=
  b "--XYZ" ++ CRLF ++ b "Content-Disposition: form-data; name=a" ++ CRLF ++ CRLF
    ++ b "--XYZ--" ++ CRLF.
Definition empty_body_a : World :=
  world_of (next_part 8 (World_init empty_body XYZ)) (World_init empty_body XYZ).

(** A caller's result seen as the value [read()] returns. *)
Definition lift_bytes (o : outcome bytes) : outcome pyval :=
  match o with
  | Ret x w => Ret (VBytes x) w
  | Raise e w => Raise e w
  | OutOfFuel => OutOfFuel
  | NoSuchPart => NoSuchPart
  end.

(** ** Notions used in the statements *)

(** The tokens [__init__] derives from [boundary]. *)
Record tokens_ok (boundary : bytes) (m : MultipartReader) : Prop := {
  tok_nl : nl m = CRLF;
  tok_nl_dash_boundary : nl_dash_boundary m = CRLF ++ b "--" ++ boundary;
  tok_dash_boundary_dash : dash_boundary_dash m = (b "--" ++ boundary) ++ b "--";
  tok_dash_boundary : dash_boundary m = b "--" ++ boundary;
  tok_dash_boundary_nl : dash_boundary_nl m = b "--" ++ boundary ++ CRLF
}.

(** The unread bytes of the byte source of a store. *)
Definition unread_of (w : World) : bytes :=
  BufferedReader.unread (buf_reader (mr w)).

(** What a part satisfies from its creation on: the counter is not negative,
    and the residual buffer is empty as long as the counter is zero. *)
Definition part_inv (p : Part) : Prop :=
  (0 <= bytes_read p)%Z /\ (bytes_read p = 0%Z -> buf p = []).

(** The bytes one body read takes off the byte source when the residual
    buffer cannot serve it, and the byte source it leaves; [first] is
    [p.bytes_read == 0]. *)
Definition pull (first : bool) (m : MultipartReader) : bytes * BufferedReader :=
  let '(peek, r1) := BufferedReader.peek BLOCK_SIZE (buf_reader m) in
  if first && peek_buffer_is_empty_part m peek then ([], r1)
  else
    let idx := find peek (dash_boundary m) in
    let safe_count :=
      (Z.of_nat (length peek) - Z.of_nat (length (dash_boundary m)))%Z in
    if negb (idx =? -1)%Z then
      if (idx >? 0)%Z then BufferedReader.read (Z.to_nat idx) r1 else ([], r1)
    else if (safe_count >? 0)%Z then BufferedReader.read (Z.to_nat safe_count) r1
    else if (safe_count =? 0)%Z then BufferedReader.read (length peek) r1
    else ([], r1).

(** The body of a part as the reads deliver it: what is pulled off the byte
    source, read after read, until a read pulls nothing. *)
Inductive Body : bool -> MultipartReader -> bytes -> Prop :=
| Body_stop first m r :
    pull first m = ([], r) -> Body first m []
| Body_more first m k r rest :
    pull first m = (k, r) -> k <> [] ->
    Body false (set_buf_reader r m) rest ->
    Body first m (k ++ rest).

(** A body read by [h] that takes exactly the first [k] unread bytes off the
    byte source into the residual buffer, none of them a byte of an
    occurrence of the delimiter token in the stream. *)
Definition pulls_exactly (h : nat) (d : Z) (w : World) (k : nat) : Prop :=
  exists v w' p p',
    _PartReader_read h d w = Ret v w' /\
    heap w !! h = Some p /\ heap w' !! h = Some p' /\
    unread_of w' = drop k (unread_of w) /\
    py_bytes v ++ buf p' = buf p ++ take k (unread_of w) /\
    forall j, startswith (drop j (unread_of w)) (dash_boundary (mr w)) = true ->
              k <= j.

(** ** Further notions used by the verification *)

(** A loop result with its value forgotten. *)
Definition void {A : Type} (o : outcome A) : outcome unit :=
  match o with
  | Ret _ w => Ret tt w
  | Raise e w => Raise e w
  | OutOfFuel => OutOfFuel
  | NoSuchPart => NoSuchPart
  end.

(** The body of a part together with the byte source the last pull leaves. *)
Inductive Drain : bool -> MultipartReader -> bytes -> BufferedReader -> Prop :=
| Drain_stop first m r :
    pull first m = ([], r) -> Drain first m [] r
| Drain_more first m k r rest rf :
    pull first m = (k, r) -> k <> [] ->
    Drain false (set_buf_reader r m) rest rf ->
    Drain first m (k ++ rest) rf.

(** An operation that came to an end: it returned or it raised. *)
Definition returns_or_raises {A : Type} (o : outcome A) : Prop :=
  (exists a w', o = Ret a w') \/ (exists ex w', o = Raise ex w').

(** Two readers that differ at most in their byte source. *)
Definition same_but_source (m m' : MultipartReader) : Prop :=
  m' = set_buf_reader (buf_reader m') m.

(** At most one part is open, and it is the reader's current part. *)
Definition one_open_part (w : World) : Prop :=
  forall i p, heap w !! i = Some p -> closed p = false ->
              current_part (mr w) = Some i.


(** The first line of [l] and what follows it; all of [l] when it holds no
    newline. *)
Definition first_line (l : bytes) : bytes * bytes :=
  match BufferedReader.split_line l with
  | Some x => x
  | None => (l, [])
  end.










(** A two-part stream whose second delimiter lies across the end of the
    first buffer of the byte source: its two dashes are bytes 8190 and 8191
    of the stream. *)
Definition straddle : bytes :=
  b "--XYZ" ++ CRLF ++ b "h: v" ++ CRLF ++ CRLF
    ++ repeat x61 (Z.to_nat 8173) ++ CRLF
    ++ b "--XYZ" ++ CRLF ++ b "h: w" ++ CRLF ++ CRLF
    ++ b "second" ++ CRLF ++ b "--XYZ--" ++ CRLF.

(** ... after [next_part()] and one [read(4096)] on the part. *)
Definition straddle_1 : World :=
  let w0 := World_init straddle XYZ in
  let w1 := world_of (next_part 8 w0) w0 in
  world_of (Part_read 8 0 (Some 4096%Z) w1) w1.

(** A stream that ends three bytes into the body of its only part. *)
Definition truncated : bytes :=
  b "--XYZ" ++ CRLF ++ b "h: v" ++ CRLF ++ CRLF ++ b "abc".

Definition truncated_a : World :=
  world_of (next_part 8 (World_init truncated XYZ)) (World_init truncated XYZ).

(** A stream that ends after the five body bytes of its only part. *)
Definition cut_short : bytes :=
  b "--XYZ" ++ CRLF ++ b "h: v" ++ CRLF ++ CRLF ++ b "hello".

Definition cut_short_a : World :=
  world_of (next_part 8 (World_init cut_short XYZ)) (World_init cut_short XYZ).

(** The loop of [parse_thermal_response] (isapi_tem.py) that reads the
    temperature grid: [while len(temp_data) < p2p_len:] read what is
    missing, stop at an empty chunk. *)
Fixpoint read_exactly (fuel : nat) (h : nat) (p2p_len : Z) (temp_data : bytes)
         (w : World) : outcome bytes :=
  match fuel with
  | 0 => OutOfFuel
  | S fuel' =>
      if (Z.of_nat (length temp_data) <? p2p_len)%Z then
        bind (Part_read fuel' h (Some (p2p_len - Z.of_nat (length temp_data))%Z) w)
             (fun chunk w1 =>
                if negb (py_truthy chunk) then Ret temp_data w1
                else read_exactly fuel' h p2p_len (temp_data ++ py_bytes chunk) w1)
      else Ret temp_data w
  end.

(** ** [isapi_tem.parse_thermal_response]: the boundary of the response

    [re.search] with the pattern made of the literal [boundary=] and a
    group holding [.*], then [match.group(1)].  A [str] is the list of its
    characters.  The search tries the start positions from the left; at
    each one the literal must match, and the group then takes every
    character up to the first newline. *)

Definition chars (x : string) : list ascii := list_ascii_of_string x.

Definition newline : ascii := ascii_of_nat 10.

Fixpoint str_startswith (x p : list ascii) {struct p} : bool :=
  match p with
  | [] => true
  | c :: p' =>
      match x with
      | [] => false
      | d :: x' => Ascii.eqb d c && str_startswith x' p'
      end
  end.

(** The greedy group: a dot is any character but a newline. *)
Fixpoint dot_star (x : list ascii) : list ascii :=
  match x with
  | [] => []
  | c :: x' => if Ascii.eqb c newline then [] else c :: dot_star x'
  end.

Definition boundary_literal : list ascii := chars "boundary=".

(** [None] is [re.search] finding no match. *)
Fixpoint re_search_boundary (x : list ascii) : option (list ascii) :=
  if str_startswith x boundary_literal
  then Some (dot_star (drop (length boundary_literal) x))
  else match x with
       | [] => None
       | _ :: x' => re_search_boundary x'
       end.

(** The first lines of [parse_thermal_response]: [None] is the
    [ValueError] raised when the header names no boundary. *)
Definition extract_boundary (content_type : list ascii) : option (list ascii) :=
  match re_search_boundary content_type with
  | None => None
  | Some boundary => Some boundary
  end.

(** No match of the literal starts at one of the first [n] positions. *)
Definition no_match_before (n : nat) (x : list ascii) : bool :=
  forallb (fun i => negb (str_startswith (drop i x) boundary_literal)) (seq 0 n).

Definition one_line (x : list ascii) : bool :=
  forallb (fun c => negb (Ascii.eqb c newline)) x.

(** * Verification *)

(** * Bytes *)

Lemma byte_eqb_eq (x y : byte) : Byte.eqb x y = true <-> x = y.
Proof. split; [apply Byte.byte_dec_bl | apply Byte.byte_dec_lb]. Qed.

Lemma bytes_eqb_eq (x y : bytes) : bytes_eqb x y = true <-> x = y.
Proof.
  revert y; induction x as [|c x IH]; intros [|e y]; simpl; try easy.
  rewrite andb_true_iff, byte_eqb_eq, IH. split.
  - intros [-> ->]; reflexivity.
  - intros [= -> ->]; split; reflexivity.
Qed.

Lemma startswith_iff (l p : bytes) :
  startswith l p = true <-> exists t, l = p ++ t.
Proof.
  revert l; induction p as [|y p IH]; intros l; simpl.
  - split; [intros _; exists l; reflexivity | reflexivity].
  - destruct l as [|x l].
    + split; [discriminate | intros [t [=]]].
    + rewrite andb_true_iff, byte_eqb_eq, IH. split.
      * intros [-> [t ->]]; eauto.
      * intros [t [= -> ->]]; eauto.
Qed.

Lemma startswith_app (p t : bytes) : startswith (p ++ t) p = true.
Proof. apply startswith_iff; eauto. Qed.

Lemma startswith_length (l p : bytes) :
  startswith l p = true -> length p <= length l.
Proof.
  intros [t ->]%startswith_iff. rewrite length_app. lia.
Qed.

Lemma startswith_prefix_trans (l p q : bytes) :
  startswith l (p ++ q) = true -> startswith l p = true.
Proof.
  intros [t ->]%startswith_iff. rewrite <- app_assoc. apply startswith_app.
Qed.

(** An occurrence that fits into a prefix of the stream is an occurrence in
    that prefix. *)
Lemma startswith_drop_app (win rest p : bytes) (j : nat) :
  startswith (drop j (win ++ rest)) p = true ->
  j + length p <= length win ->
  startswith (drop j win) p = true.
Proof.
  intros [t Ht]%startswith_iff Hle. apply startswith_iff.
  rewrite drop_app_le in Ht by lia.
  exists (drop (length p) (drop j win)).
  assert (Hlen : length p <= length (drop j win)) by (rewrite length_drop; lia).
  rewrite <- (take_drop (length p) (drop j win)) at 1. f_equal.
  apply (f_equal (take (length p))) in Ht.
  rewrite take_app_le in Ht by exact Hlen.
  rewrite Ht, take_app_length. reflexivity.
Qed.

Lemma startswith_app_l (win rest p : bytes) :
  startswith win p = true -> startswith (win ++ rest) p = true.
Proof.
  intros [t ->]%startswith_iff. rewrite <- app_assoc. apply startswith_app.
Qed.

Lemma skipLWSPChar_id (l : bytes) : skipLWSPChar l = l.
Proof. destruct l; reflexivity. Qed.

(** * [find] *)

Lemma find_from_range (i : Z) (l sub : bytes) :
  find_from i l sub = (-1)%Z \/
  (i <= find_from i l sub <= i + Z.of_nat (length l) - Z.of_nat (length sub))%Z.
Proof.
  revert i; induction l as [|x l IH]; intros i; simpl.
  - destruct sub; simpl; [right; lia | left; reflexivity].
  - destruct (startswith (x :: l) sub) eqn:E.
    + apply startswith_length in E. simpl in E. right; lia.
    + destruct (IH (i + 1)%Z) as [->|H]; [left; reflexivity | right; lia].
Qed.

Lemma find_from_shift (i : Z) (l sub : bytes) :
  find_from i l sub = (-1)%Z /\ find_from 0 l sub = (-1)%Z \/
  find_from i l sub = (i + find_from 0 l sub)%Z /\ (0 <= find_from 0 l sub)%Z.
Proof.
  revert i; induction l as [|x l IH]; intros i; simpl.
  - destruct (startswith [] sub); [right; lia | left; auto].
  - destruct (startswith (x :: l) sub); [right; lia|].
    destruct (IH (i + 1)%Z) as [[Hi H0]|[Hi H0]];
      destruct (IH (0 + 1)%Z) as [[H1 H0']|[H1 H0']]; rewrite Hi, H1;
      first [left; split; lia | right; split; lia].
Qed.

(** [find] returns an offset at which [sub] occurs, and the lowest one. *)
Lemma find_found (l sub : bytes) (idx : nat) :
  find l sub = Z.of_nat idx ->
  startswith (drop idx l) sub = true /\
  idx + length sub <= length l /\
  forall j, j < idx -> startswith (drop j l) sub = false.
Proof.
  unfold find. revert idx; induction l as [|x l IH]; intros idx; simpl.
  - destruct (startswith [] sub) eqn:E; [|lia].
    intros H. assert (idx = 0) as -> by lia. simpl.
    split; [exact E|]. split; [apply startswith_length in E; simpl in E; lia | lia].
  - destruct (startswith (x :: l) sub) eqn:E.
    + intros H. assert (idx = 0) as -> by lia. simpl.
      split; [exact E|]. split; [apply startswith_length in E; simpl in E; lia | lia].
    + intros H.
      destruct (find_from_shift (0 + 1) l sub) as [[H1 _]|[H1 H0]]; [lia|].
      destruct idx as [|idx]; [lia|].
      destruct (IH idx) as (Ha & Hb & Hc); [lia|].
      simpl. split; [exact Ha|]. split; [lia|].
      intros [|j] Hj; simpl; [exact E | apply Hc; lia].
Qed.

Lemma find_not_found (l sub : bytes) (j : nat) :
  find l sub = (-1)%Z -> startswith (drop j l) sub = false.
Proof.
  unfold find. revert j; induction l as [|x l IH]; intros j; simpl.
  - destruct (startswith [] sub) eqn:E; [lia|]. intros _. destruct j; exact E.
  - destruct (startswith (x :: l) sub) eqn:E; [lia|]. intros H.
    destruct (find_from_shift (0 + 1) l sub) as [[_ H0]|[H1 H0]]; [|lia].
    destruct j as [|j]; simpl; [exact E | apply IH, H0].
Qed.

Lemma find_cases (l sub : bytes) :
  find l sub = (-1)%Z \/ exists idx, find l sub = Z.of_nat idx.
Proof.
  destruct (find_from_range 0 l sub) as [H|H]; [left; exact H|].
  right. exists (Z.to_nat (find l sub)). unfold find in *. lia.
Qed.

Lemma find_startswith (l sub : bytes) :
  startswith l sub = true -> find l sub = 0%Z.
Proof. unfold find. destruct l; simpl; intros ->; reflexivity. Qed.

(** * Slices *)

Lemma slice_to_nat (n : nat) (l : bytes) : slice_to (Z.of_nat n) l = take n l.
Proof.
  unfold slice_to, py_bound. destruct (Z.ltb_spec (Z.of_nat n) 0); [lia|].
  rewrite Nat2Z.id. destruct (Nat.le_gt_cases n (length l)).
  - rewrite Nat.min_l by lia. reflexivity.
  - rewrite Nat.min_r by lia. rewrite !take_ge by lia. reflexivity.
Qed.

Lemma slice_from_nat (n : nat) (l : bytes) : slice_from (Z.of_nat n) l = drop n l.
Proof.
  unfold slice_from, py_bound. destruct (Z.ltb_spec (Z.of_nat n) 0); [lia|].
  rewrite Nat2Z.id. destruct (Nat.le_gt_cases n (length l)).
  - rewrite Nat.min_l by lia. reflexivity.
  - rewrite Nat.min_r by lia. rewrite !drop_ge by lia. reflexivity.
Qed.

Lemma slice_to_from (n : Z) (l : bytes) : slice_to n l ++ slice_from n l = l.
Proof. apply take_drop. Qed.

Lemma py_bound_nat (n len : nat) : n <= len -> py_bound (Z.of_nat n) len = n.
Proof.
  intros H. unfold py_bound. destruct (Z.ltb_spec (Z.of_nat n) 0); lia.
Qed.

Lemma init_tokens (stream boundary : bytes) :
  tokens_ok boundary (MultipartReader_init stream boundary).
Proof.
  set (tok := b "--" ++ boundary).
  assert (Hb0 : CRLF ++ b "--" ++ boundary ++ b "--" = (CRLF ++ tok) ++ b "--")
    by (unfold tok; rewrite <- !app_assoc; reflexivity).
  assert (Hlen : length ((CRLF ++ tok) ++ b "--") = 2 + length tok + 2)
    by (rewrite !length_app; simpl; lia).
  assert (Hn : (Z.of_nat (length ((CRLF ++ tok) ++ b "--")) - 2)%Z
               = Z.of_nat (2 + length tok)) by lia.
  split; unfold MultipartReader_init;
    cbn [nl nl_dash_boundary dash_boundary_dash dash_boundary dash_boundary_nl];
    rewrite ?Hb0, ?Hn.
  - reflexivity.
  - rewrite slice_to_nat.
    replace (2 + length tok) with (length (CRLF ++ tok))
      by (rewrite length_app; reflexivity).
    rewrite take_app_length. reflexivity.
  - reflexivity.
  - unfold slice. rewrite Hlen.
    change 2%Z with (Z.of_nat 2). rewrite !py_bound_nat by lia.
    change (drop 2 ((CRLF ++ tok) ++ b "--")) with (tok ++ b "--").
    replace (2 + length tok - 2) with (length tok) by lia.
    rewrite take_app_length. reflexivity.
  - reflexivity.
Qed.

(** * The byte source *)

Lemma buffer_size_pos : 0 < DEFAULT_BUFFER_SIZE.
Proof. unfold DEFAULT_BUFFER_SIZE. lia. Qed.

Lemma take_buffer_nil (l : bytes) : take DEFAULT_BUFFER_SIZE l = [] -> l = [].
Proof.
  intros H. apply (f_equal length) in H. rewrite length_take in H.
  pose proof buffer_size_pos. destruct l; [reflexivity | simpl in H; lia].
Qed.

Lemma peek_spec (n : Z) (r r1 : BufferedReader) (win : bytes) :
  BufferedReader.peek n r = (win, r1) ->
  win = buffered r1 /\ BufferedReader.unread r1 = BufferedReader.unread r.
Proof.
  unfold BufferedReader.peek, BufferedReader.unread, BufferedReader.fill.
  destruct (buffered r) eqn:E; intros [= <- <-]; simpl.
  - split; [reflexivity | apply take_drop].
  - rewrite E. split; reflexivity.
Qed.

Lemma peek_idem (n n' : Z) (r r1 : BufferedReader) (win : bytes) :
  BufferedReader.peek n r = (win, r1) -> BufferedReader.peek n' r1 = (win, r1).
Proof.
  unfold BufferedReader.peek, BufferedReader.fill.
  destruct (buffered r) eqn:E; intros [= <- <-]; simpl.
  - destruct (take DEFAULT_BUFFER_SIZE (raw r)) eqn:T; [|reflexivity].
    apply take_buffer_nil in T. rewrite T.
    rewrite ?take_nil, ?drop_nil. reflexivity.
  - rewrite E. reflexivity.
Qed.

(** A read of no more than the bytes read ahead takes exactly that many
    bytes off the front of the stream. *)
Lemma read_buffered (n : nat) (r : BufferedReader) :
  n <= length (buffered r) ->
  exists r', BufferedReader.read n r = (take n (BufferedReader.unread r), r') /\
             BufferedReader.unread r' = drop n (BufferedReader.unread r).
Proof.
  intros H. unfold BufferedReader.read, BufferedReader.unread.
  destruct (Nat.leb_spec n (length (buffered r))); [|lia].
  eexists; split.
  - rewrite take_app_le by lia. reflexivity.
  - simpl. rewrite drop_app_le by lia. reflexivity.
Qed.

Lemma read_zero (r : BufferedReader) : BufferedReader.read 0 r = ([], r).
Proof. destruct r; reflexivity. Qed.

(** * One pull off the byte source *)

Lemma set_buf_reader_tokens (r : BufferedReader) (m : MultipartReader) :
  buf_reader (set_buf_reader r m) = r /\
  dash_boundary (set_buf_reader r m) = dash_boundary m.
Proof. split; reflexivity. Qed.

(** What is pulled is the front of the unread bytes, and the rest stays. *)
Lemma pull_spec (first : bool) (m : MultipartReader) (k : bytes) (r : BufferedReader) :
  pull first m = (k, r) ->
  k = take (length k) (BufferedReader.unread (buf_reader m)) /\
  BufferedReader.unread r = drop (length k) (BufferedReader.unread (buf_reader m)).
Proof.
  unfold pull.
  destruct (BufferedReader.peek BLOCK_SIZE (buf_reader m)) as [win r1] eqn:P.
  apply peek_spec in P as [Hwin Hun]. rewrite <- Hun.
  assert (Hnil : ([] : bytes, r1) = (k, r) ->
                 k = take (length k) (BufferedReader.unread r1) /\
                 BufferedReader.unread r = drop (length k) (BufferedReader.unread r1))
    by (intros [= <- <-]; split; reflexivity).
  assert (Hread : forall n, n <= length win ->
            BufferedReader.read n r1 = (k, r) ->
            k = take (length k) (BufferedReader.unread r1) /\
            BufferedReader.unread r = drop (length k) (BufferedReader.unread r1)).
  { intros n Hn Hr. destruct (read_buffered n r1) as (r' & E & Hu); [rewrite <- Hwin; lia|].
    rewrite E in Hr. injection Hr as <- <-.
    assert (Hl : length (take n (BufferedReader.unread r1)) = n).
    { rewrite length_take. unfold BufferedReader.unread. rewrite length_app, <- Hwin. lia. }
    rewrite Hl. split; [reflexivity | exact Hu]. }
  destruct (first && peek_buffer_is_empty_part m win); [exact Hnil|].
  destruct (find_cases win (dash_boundary m)) as [E|[idx E]]; rewrite E.
  - simpl negb. cbv iota.
    destruct (Z.gtb_spec (Z.of_nat (length win) - Z.of_nat (length (dash_boundary m))) 0).
    + apply Hread. lia.
    + destruct (Z.eqb_spec (Z.of_nat (length win) - Z.of_nat (length (dash_boundary m))) 0);
        [apply Hread; lia | exact Hnil].
  - apply find_found in E as (_ & Hle & _).
    destruct (Z.eqb_spec (Z.of_nat idx) (-1)); [lia|]. simpl negb. cbv iota.
    destruct (Z.gtb_spec (Z.of_nat idx) 0); [|exact Hnil].
    apply Hread. lia.
Qed.

(** A pull that takes nothing leaves a byte source from which the next pull
    takes nothing either. *)
Lemma pull_nothing_again (m : MultipartReader) (r : BufferedReader) :
  pull false m = ([], r) -> pull false (set_buf_reader r m) = ([], r).
Proof.
  unfold pull. cbn [buf_reader set_buf_reader dash_boundary andb].
  destruct (BufferedReader.peek BLOCK_SIZE (buf_reader m)) as [win r1] eqn:P.
  pose proof (peek_spec _ _ _ _ P) as [Hwin _].
  assert (Hr1 : forall n, n <= length win -> BufferedReader.read n r1 = ([], r) ->
                          n = 0 /\ r = r1).
  { intros n Hn Hr. destruct (read_buffered n r1) as (r' & E & _); [rewrite <- Hwin; lia|].
    rewrite E in Hr. injection Hr as Hk ->.
    apply (f_equal length) in Hk. rewrite length_take in Hk.
    unfold BufferedReader.unread in Hk. rewrite length_app, <- Hwin in Hk. simpl in Hk.
    assert (n = 0) as -> by lia. rewrite read_zero in E. injection E as E. auto. }
  intros H.
  assert (r = r1) as ->.
  { revert H.
    destruct (find_cases win (dash_boundary m)) as [E|[idx E]]; rewrite E.
    - simpl negb. cbv iota.
      destruct (Z.gtb_spec (Z.of_nat (length win) - Z.of_nat (length (dash_boundary m))) 0).
      + intros Hp. apply Hr1 in Hp; [apply Hp | lia].
      + destruct (Z.eqb_spec (Z.of_nat (length win) - Z.of_nat (length (dash_boundary m))) 0).
        * intros Hp. apply Hr1 in Hp; [apply Hp | lia].
        * intros [= <-]; reflexivity.
    - apply find_found in E as (_ & Hle & _).
      destruct (Z.eqb_spec (Z.of_nat idx) (-1)); [lia|]. simpl negb. cbv iota.
      destruct (Z.gtb_spec (Z.of_nat idx) 0); [|intros [= <-]; reflexivity].
      intros Hp. apply Hr1 in Hp; [apply Hp | lia]. }
  rewrite (peek_idem _ BLOCK_SIZE _ _ _ P). exact H.
Qed.

Lemma finally_count_empty (q : Part) : finally_count (VStr EmptyString) q = q.
Proof. destruct q. unfold finally_count. simpl. f_equal. lia. Qed.

Lemma slice_to_nil (d : Z) : slice_to d [] = [].
Proof. unfold slice_to. apply take_nil. Qed.

Lemma slice_from_nil (d : Z) : slice_from d [] = [].
Proof. unfold slice_from. apply drop_nil. Qed.

(** A read the residual buffer can serve. *)
Lemma PartReader_read_buffer (h : nat) (d : Z) (w : World) (p : Part) :
  heap w !! h = Some p ->
  (d <= Z.of_nat (length (buf p)))%Z ->
  _PartReader_read h d w
  = Ret (VBytes (slice_to d (buf p)))
        (set_part h (set_buf (slice_from d (buf p)) p) w).
Proof.
  intros Hh Hd. unfold _PartReader_read. rewrite Hh.
  destruct (Z.geb_spec (Z.of_nat (length (buf p))) d); [|lia].
  simpl. rewrite finally_count_empty. reflexivity.
Qed.

(** A read that goes to the byte source. *)
Lemma PartReader_read_stream (h : nat) (d : Z) (w : World) (p : Part)
      (k : bytes) (r : BufferedReader) :
  heap w !! h = Some p ->
  (Z.of_nat (length (buf p)) < d)%Z ->
  (bytes_read p = 0%Z -> buf p = []) ->
  pull (bytes_read p =? 0)%Z (mr w) = (k, r) ->
  exists v,
    _PartReader_read h d w
    = Ret v (set_part h (finally_count (VBytes (slice_to d (buf p ++ k)))
                                       (set_buf (slice_from d (buf p ++ k)) p))
                      (set_reader r w)) /\
    py_bytes v = slice_to d (buf p ++ k) /\
    py_truthy v = negb (length (py_bytes v) =? 0).
Proof.
  intros Hh Hd Hinv Hpull. unfold _PartReader_read. rewrite Hh.
  destruct (Z.geb_spec (Z.of_nat (length (buf p))) d); [lia|].
  unfold pull in Hpull.
  destruct (BufferedReader.peek BLOCK_SIZE (buf_reader (mr w))) as [win r1].
  destruct ((bytes_read p =? 0)%Z && peek_buffer_is_empty_part (mr w) win) eqn:Ee.
  - injection Hpull as <- <-.
    apply andb_true_iff in Ee as [Hz%Z.eqb_eq _]. rewrite (Hinv Hz).
    simpl app. rewrite slice_to_nil, slice_from_nil.
    exists (VStr EmptyString). split; [|split; reflexivity].
    do 2 f_equal. rewrite finally_count_empty.
    destruct p; unfold finally_count, set_buf; simpl in *. f_equal; [auto | lia].
  - unfold Buff.init, Buff.read. cbn [fst].
    revert Hpull.
    set (idx := find win (dash_boundary (mr w))).
    set (safe_count := (Z.of_nat (length win) - Z.of_nat (length (dash_boundary (mr w))))%Z).
    destruct (idx =? -1)%Z eqn:Ei; cbn [negb andb].
    + destruct (safe_count >? 0)%Z eqn:Es.
      * intros ->. rewrite Es. eexists; split; [reflexivity|]. split; reflexivity.
      * destruct (safe_count =? 0)%Z eqn:E0.
        -- intros ->. cbn [Z.gtb Z.compare].
           eexists; split; [reflexivity|]. split; reflexivity.
        -- intros [= <- <-]. cbn [Z.gtb Z.compare]. rewrite app_nil_r.
           eexists; split; [reflexivity|]. split; reflexivity.
    + destruct (idx >? 0)%Z eqn:Eg.
      * intros ->. eexists; split; [reflexivity|]. split; reflexivity.
      * intros [= <- <-]. rewrite app_nil_r.
        eexists; split; [reflexivity|]. split; reflexivity.
Qed.

(** * The store *)

Lemma lookup_set_part (h : nat) (q p : Part) (w : World) :
  heap w !! h = Some p -> heap (set_part h q w) !! h = Some q.
Proof.
  intros H. unfold set_part. simpl. apply list_lookup_insert_eq.
  apply lookup_lt_Some in H. exact H.
Qed.

Lemma set_part_same (h : nat) (p : Part) (w : World) :
  heap w !! h = Some p -> set_part h p w = w.
Proof.
  intros H. destruct w as [m hp]. unfold set_part. simpl in *.
  f_equal. apply list_insert_id. exact H.
Qed.

(** Every body read returns, a [str] or [bytes] value, and leaves the part
    in the store, as open or closed as it was. *)
Lemma PartReader_read_shape (h : nat) (d : Z) (w : World) (p : Part) :
  heap w !! h = Some p ->
  exists v w1 p1,
    _PartReader_read h d w = Ret v w1 /\
    heap w1 !! h = Some p1 /\ closed p1 = closed p /\
    (v = VStr EmptyString \/ exists l, v = VBytes l).
Proof.
  intros Hh. unfold _PartReader_read. rewrite Hh.
  assert (Hl : forall q r, heap (set_part h q (set_reader r w)) !! h = Some q)
    by (intros q r; apply (lookup_set_part h q p (set_reader r w)); exact Hh).
  repeat case_match; simplify_eq;
    (do 3 eexists; split; [reflexivity|]; split;
     [first [apply Hl | apply (lookup_set_part h _ p w Hh)] |]; split; [reflexivity|]; eauto).
Qed.

Lemma py_stop_test (v : pyval) :
  v = VStr EmptyString \/ (exists l, v = VBytes l) ->
  negb (py_truthy v) || (py_len v =? 0) = negb (py_truthy v).
Proof.
  intros [->|[l ->]]; [reflexivity|]. simpl. destruct (length l); reflexivity.
Qed.

(** [read()] without a length is the caller's loop with chunks of
    [BLOCK_SIZE] bytes. *)
Lemma Part_read_all_chunks (fuel h : nat) (data : bytes) (w : World) (p : Part) :
  heap w !! h = Some p -> closed p = false ->
  Part_read_all fuel h data w = lift_bytes (read_in_chunks fuel h BLOCK_SIZE data w).
Proof.
  revert data w p; induction fuel as [|fuel IH]; intros data w p Hh Hc; [reflexivity|].
  simpl. unfold Part_read. rewrite Hh, Hc.
  destruct (PartReader_read_shape h BLOCK_SIZE w p Hh) as (v & w1 & p1 & -> & Hh1 & Hc1 & Hv).
  simpl. rewrite (py_stop_test v Hv).
  destruct (negb (py_truthy v)); [reflexivity|].
  apply (IH _ _ p1); [exact Hh1 | congruence].
Qed.

Lemma pull_length (first : bool) (m : MultipartReader) (k : bytes) (r : BufferedReader) :
  pull first m = (k, r) ->
  length k + length (BufferedReader.unread r)
  = length (BufferedReader.unread (buf_reader m)).
Proof.
  intros [Hk Hu]%pull_spec. rewrite Hu, length_drop.
  apply (f_equal length) in Hk. rewrite length_take in Hk. lia.
Qed.

Lemma Body_exists (n : nat) (first : bool) (m : MultipartReader) :
  length (BufferedReader.unread (buf_reader m)) <= n ->
  exists body, Body first m body.
Proof.
  revert first m; induction n as [|n IH]; intros first m Hn;
    destruct (pull first m) as [k r] eqn:P;
    pose proof (pull_length _ _ _ _ P) as Hl;
    (destruct k as [|x k]; [exists []; eapply Body_stop; exact P|]);
    cbn [length] in Hl.
  - lia.
  - destruct (IH false (set_buf_reader r m)) as [rest Hrest].
    + cbn [buf_reader set_buf_reader]. lia.
    + exists ((x :: k) ++ rest). eapply Body_more; [exact P | discriminate | exact Hrest].
Qed.

(** The caller's loop delivers the residual buffer followed by the body,
    whatever the chunk size. *)
Lemma read_in_chunks_body (n : nat) :
  forall (fuel h : nat) (dn : nat) (w : World) (p : Part) (data0 body : bytes),
    0 < dn ->
    heap w !! h = Some p -> closed p = false -> part_inv p ->
    length (buf p) + length (unread_of w) <= n -> n < fuel ->
    Body (bytes_read p =? 0)%Z (mr w) body ->
    exists w', read_in_chunks fuel h (Z.of_nat dn) data0 w
               = Ret (data0 ++ buf p ++ body) w'.
Proof.
  induction n as [n IH] using lt_wf_ind.
  intros fuel h dn w p data0 body Hd Hh Hc [Hge Hinv] Hn Hf HB.
  unfold unread_of in *.
  destruct fuel as [|fuel]; [lia|].
  simpl. unfold Part_read. rewrite Hh, Hc.
  destruct (Nat.le_gt_cases dn (length (buf p))) as [Hfast|Hslow].
  - (* served from the residual buffer *)
    rewrite (PartReader_read_buffer h _ w p Hh) by lia.
    rewrite slice_to_nat, slice_from_nat. simpl.
    assert (Hlt : length (take dn (buf p)) = dn) by (rewrite length_take; lia).
    rewrite Hlt. destruct dn as [|dn']; [lia|]. simpl negb. cbv iota.
    set (p1 := set_buf (drop (S dn') (buf p)) p).
    destruct (IH (n - 1)) with (fuel := fuel) (h := h) (dn := S dn')
      (w := set_part h p1 w) (p := p1) (data0 := data0 ++ take (S dn') (buf p)) (body := body)
      as [w' Hw']; try lia.
    + eapply lookup_set_part; exact Hh.
    + exact Hc.
    + split; [exact Hge|]. intros Hz. simpl. rewrite (Hinv Hz). apply drop_nil.
    + unfold unread_of, p1 in *. simpl. rewrite length_drop. lia.
    + exact HB.
    + exists w'. rewrite Hw'. f_equal. unfold p1. simpl.
      rewrite <- !app_assoc. f_equal. rewrite app_assoc, take_drop. reflexivity.
  - (* the read goes to the byte source *)
    destruct (pull (bytes_read p =? 0)%Z (mr w)) as [k r] eqn:P.
    destruct (PartReader_read_stream h (Z.of_nat dn) w p k r Hh ltac:(lia) Hinv P)
      as (v & -> & Hv & Ht).
    pose proof (pull_length _ _ _ _ P) as Hl.
    simpl. rewrite Ht, Hv, slice_to_nat, slice_from_nat.
    set (out := take dn (buf p ++ k)).
    set (p1 := finally_count (VBytes out) (set_buf (drop dn (buf p ++ k)) p)).
    assert (Hout : length out = Nat.min dn (length (buf p) + length k))
      by (unfold out; rewrite length_take, length_app; reflexivity).
    destruct (length out) as [|lo] eqn:Elo.
    + (* nothing to return: the loop ends *)
      assert (buf p = [] /\ k = []) as [Eb Ek].
      { destruct (buf p), k; simpl in *; try lia; auto. }
      simpl. exists (set_part h p1 (set_reader r w)). f_equal.
      rewrite Eb. simpl app. inversion HB as [? ? ? P'|? ? k' ? ? P' Hne]; subst.
      * rewrite app_nil_r. reflexivity.
      * rewrite P in P'. congruence.
    + simpl negb. cbv iota.
      assert (Hh1 : heap (set_part h p1 (set_reader r w)) !! h = Some p1)
        by (apply (lookup_set_part h p1 p (set_reader r w)); exact Hh).
      assert (Hpos : (bytes_read p1 =? 0)%Z = false).
      { apply Z.eqb_neq. unfold p1. simpl. rewrite Elo. lia. }
      assert (Hinv1 : part_inv p1).
      { split; [unfold p1; simpl; lia|]. intros Hz. apply Z.eqb_neq in Hpos. contradiction. }
      assert (HB1 : exists rest, Body false (set_buf_reader r (mr w)) rest /\ body = k ++ rest).
      { inversion HB as [? ? r' P'|? ? k' r' rest P' Hne Hrest]; subst.
        - rewrite P in P'. injection P' as -> <-.
          exists []. split; [|reflexivity].
          destruct (bytes_read p =? 0)%Z eqn:Ez.
          + apply Z.eqb_eq in Ez. rewrite (Hinv Ez) in *. simpl in *. lia.
          + eapply Body_stop. apply pull_nothing_again. exact P.
        - rewrite P in P'. injection P' as <- <-. eauto. }
      destruct HB1 as (rest & Hrest & ->).
      destruct (IH (n - 1)) with (fuel := fuel) (h := h) (dn := dn)
        (w := set_part h p1 (set_reader r w)) (p := p1) (data0 := data0 ++ out) (body := rest)
        as [w' Hw']; try lia; try assumption.
      * unfold unread_of, p1 in *. cbn [buf mr set_part set_reader finally_count set_buf buf_reader set_buf_reader].
        rewrite length_drop, length_app. lia.
      * rewrite Hpos. exact Hrest.
      * exists w'. rewrite Hw'. f_equal. unfold p1, out. simpl.
        rewrite <- !app_assoc. f_equal.
        rewrite (app_assoc (take _ _)), take_drop, <- app_assoc. reflexivity.
Qed.

(** A read that goes to the byte source, whatever the state of the part:
    what it returns and what it leaves in the residual buffer are the old
    residual buffer followed by what was pulled. *)
Lemma PartReader_read_pull (h : nat) (d : Z) (w : World) (p : Part)
      (k : bytes) (r : BufferedReader) :
  heap w !! h = Some p ->
  (Z.of_nat (length (buf p)) < d)%Z ->
  pull (bytes_read p =? 0)%Z (mr w) = (k, r) ->
  exists v p',
    _PartReader_read h d w = Ret v (set_part h p' (set_reader r w)) /\
    py_bytes v ++ buf p' = buf p ++ k.
Proof.
  intros Hh Hd Hpull. unfold _PartReader_read. rewrite Hh.
  destruct (Z.geb_spec (Z.of_nat (length (buf p))) d); [lia|].
  unfold pull in Hpull.
  destruct (BufferedReader.peek BLOCK_SIZE (buf_reader (mr w))) as [win r1].
  destruct ((bytes_read p =? 0)%Z && peek_buffer_is_empty_part (mr w) win).
  - injection Hpull as <- <-. do 2 eexists. split; [reflexivity|].
    simpl. rewrite app_nil_r. reflexivity.
  - unfold Buff.init, Buff.read. cbn [fst].
    revert Hpull.
    set (idx := find win (dash_boundary (mr w))).
    set (safe_count := (Z.of_nat (length win) - Z.of_nat (length (dash_boundary (mr w))))%Z).
    destruct (idx =? -1)%Z eqn:Ei; cbn [negb andb].
    + destruct (safe_count >? 0)%Z eqn:Es.
      * intros ->. rewrite Es. do 2 eexists; split; [reflexivity|]. apply slice_to_from.
      * destruct (safe_count =? 0)%Z eqn:E0.
        -- intros ->. cbn [Z.gtb Z.compare].
           do 2 eexists; split; [reflexivity|]. apply slice_to_from.
        -- intros [= <- <-]. cbn [Z.gtb Z.compare]. rewrite app_nil_r.
           do 2 eexists; split; [reflexivity|]. apply slice_to_from.
    + destruct (idx >? 0)%Z eqn:Eg.
      * intros ->. do 2 eexists; split; [reflexivity|]. apply slice_to_from.
      * intros [= <- <-]. rewrite app_nil_r.
        do 2 eexists; split; [reflexivity|]. apply slice_to_from.
Qed.

Lemma empty_part_startswith (boundary : bytes) (m : MultipartReader) (win : bytes) :
  tokens_ok boundary m ->
  peek_buffer_is_empty_part m win = true ->
  startswith win (dash_boundary m) = true.
Proof.
  intros T. unfold peek_buffer_is_empty_part.
  destruct (startswith win (dash_boundary_dash m)) eqn:E.
  - intros _. rewrite (tok_dash_boundary_dash _ _ T) in E.
    rewrite (tok_dash_boundary _ _ T). eapply startswith_prefix_trans, E.
  - destruct (startswith win (dash_boundary m)); [reflexivity | discriminate].
Qed.

(** What [pull] takes when the delimiter token is found in the window. *)
Lemma pull_found (boundary : bytes) (first : bool) (m : MultipartReader)
      (win : bytes) (r1 : BufferedReader) (idx : nat) :
  tokens_ok boundary m ->
  BufferedReader.peek BLOCK_SIZE (buf_reader m) = (win, r1) ->
  find win (dash_boundary m) = Z.of_nat idx ->
  exists k r, pull first m = (k, r) /\ length k = idx.
Proof.
  intros T P E. unfold pull. rewrite P.
  pose proof (peek_spec _ _ _ _ P) as [Hwin _].
  destruct (first && peek_buffer_is_empty_part m win) eqn:Ee.
  - apply andb_true_iff in Ee as [_ He].
    apply (empty_part_startswith _ _ _ T), find_startswith in He.
    do 2 eexists; split; [reflexivity|]. simpl. lia.
  - rewrite E. apply find_found in E as (_ & Hle & _).
    destruct (Z.eqb_spec (Z.of_nat idx) (-1)); [lia|]. cbn [negb].
    destruct (Z.gtb_spec (Z.of_nat idx) 0).
    + destruct (read_buffered (Z.to_nat (Z.of_nat idx)) r1) as (r' & -> & _);
        [rewrite <- Hwin; lia|].
      do 2 eexists; split; [reflexivity|].
      rewrite length_take. unfold BufferedReader.unread.
      rewrite length_app, <- Hwin. lia.
    + do 2 eexists; split; [reflexivity|]. simpl. lia.
Qed.

(** What [pull] takes when the token is not found in a window longer than
    the token. *)
Lemma pull_safe (boundary : bytes) (first : bool) (m : MultipartReader)
      (win : bytes) (r1 : BufferedReader) :
  tokens_ok boundary m ->
  BufferedReader.peek BLOCK_SIZE (buf_reader m) = (win, r1) ->
  find win (dash_boundary m) = (-1)%Z ->
  length (dash_boundary m) < length win ->
  exists k r, pull first m = (k, r) /\
              length k = length win - length (dash_boundary m).
Proof.
  intros T P E Hlen. unfold pull. rewrite P.
  pose proof (peek_spec _ _ _ _ P) as [Hwin _].
  destruct (first && peek_buffer_is_empty_part m win) eqn:Ee.
  - apply andb_true_iff in Ee as [_ He].
    apply (empty_part_startswith _ _ _ T), find_startswith in He. lia.
  - rewrite E. cbn [Z.eqb negb].
    destruct (Z.gtb_spec (Z.of_nat (length win) - Z.of_nat (length (dash_boundary m))) 0);
      [|lia].
    destruct (read_buffered
                (Z.to_nat (Z.of_nat (length win) - Z.of_nat (length (dash_boundary m)))) r1)
      as (r' & -> & _); [rewrite <- Hwin; lia|].
    do 2 eexists; split; [reflexivity|].
    rewrite length_take. unfold BufferedReader.unread.
    rewrite length_app, <- Hwin. lia.
Qed.

(** From what [pull] takes to what the read does. *)
Lemma pulls_exactly_intro (h : nat) (d : Z) (w : World) (p : Part)
      (k : bytes) (r : BufferedReader) :
  heap w !! h = Some p ->
  (Z.of_nat (length (buf p)) < d)%Z ->
  pull (bytes_read p =? 0)%Z (mr w) = (k, r) ->
  (forall j, startswith (drop j (unread_of w)) (dash_boundary (mr w)) = true ->
             length k <= j) ->
  pulls_exactly h d w (length k).
Proof.
  intros Hh Hd P Hocc.
  destruct (PartReader_read_pull h d w p k r Hh Hd P) as (v & p' & E & Hb).
  pose proof (pull_spec _ _ _ _ P) as [Hk Hu].
  exists v, (set_part h p' (set_reader r w)), p, p'.
  split; [exact E|]. split; [exact Hh|].
  split; [apply (lookup_set_part h p' p (set_reader r w)); exact Hh|].
  split; [exact Hu|]. split; [|exact Hocc].
  rewrite Hb. unfold unread_of. rewrite <- Hk. reflexivity.
Qed.

Lemma Part_read_all_no_raise (fuel h : nat) (data : bytes) (w : World) (p : Part) :
  heap w !! h = Some p ->
  forall e w', Part_read_all fuel h data w <> Raise e w'.
Proof.
  revert data w p; induction fuel as [|fuel IH]; intros data w p Hh e w'; [discriminate|].
  simpl.
  destruct (PartReader_read_shape h BLOCK_SIZE w p Hh) as (v & w1 & p1 & -> & Hh1 & _ & _).
  simpl. destruct (negb (py_truthy v) || (py_len v =? 0)); [discriminate|].
  apply (IH _ _ p1 Hh1).
Qed.

(** C4 (read after close).  [Part.read] raises the usage error exactly when
    the part is closed, with or without a length; on an open part it raises
    nothing at all. *)
Theorem read_raises_iff_closed (fuel h : nat) (d : option Z) (w : World) (p : Part) :
  heap w !! h = Some p ->
  ((exists w', Part_read fuel h d w = Raise PartAlreadyClosed w') <-> closed p = true) /\
  (closed p = false -> forall e w', Part_read fuel h d w <> Raise e w').
Proof.
  intros Hh. unfold Part_read. rewrite Hh. destruct (closed p) eqn:Hc.
  - split; [|discriminate]. split; [reflexivity | intros _; eauto].
  - assert (Hno : forall e w',
              match d with
              | Some d0 => _PartReader_read h d0 w
              | None => Part_read_all fuel h [] w
              end <> Raise e w').
    { intros e w'. destruct d as [d0|].
      - destruct (PartReader_read_shape h d0 w p Hh) as (v & w1 & p1 & -> & _). discriminate.
      - apply (Part_read_all_no_raise fuel h [] w p Hh). }
    split; [|intros _; exact Hno].
    split; [intros [w' Hw']; exfalso; exact (Hno _ _ Hw') | discriminate].
Qed.

Lemma read_raises_iff_closed_witness :
  heap scenario_b !! 0 = Some (mkPart [] 7 [header_text (b "Content-Disposition: form-data; name=a")] true) /\
  ((exists w', Part_read 8 0 None scenario_b = Raise PartAlreadyClosed w') <-> true = true).
Proof.
  split; [vm_compute; reflexivity|].
  apply (read_raises_iff_closed 8 0 None scenario_b
           (mkPart [] 7 [header_text (b "Content-Disposition: form-data; name=a")] true)).
  vm_compute; reflexivity.
Defined.

(** C5 (newline adaptation).  The claim fails: [is_boundary_delimeter_line]
    never changes the reader, a delimiter line that ends in a bare LF is
    never recognised, and on an LF-only stream [next_part] opens no part. *)
Lemma is_boundary_delimeter_line_keeps_reader (m : MultipartReader) (line : bytes) :
  snd (is_boundary_delimeter_line m line) = m.
Proof.
  unfold is_boundary_delimeter_line.
  destruct (startswith line (dash_boundary m)); [|reflexivity].
  cbn [snd]. rewrite skipLWSPChar_id.
  destruct (slice_from _ line) as [|x rest]; [rewrite andb_false_r; reflexivity|].
  cbn [py_eq byte_index]. rewrite andb_false_r. reflexivity.
Qed.

Theorem lf_delimiter_line_not_recognized :
  (forall m line, snd (is_boundary_delimeter_line m line) = m) /\
  (forall stream boundary,
      fst (is_boundary_delimeter_line (MultipartReader_init stream boundary)
                                      (b "--" ++ boundary ++ [LF])) = false) /\
  (exists w, next_part 8 (World_init lf_only XYZ) = Ret None w /\ heap w = []).
Proof.
  split; [exact is_boundary_delimeter_line_keeps_reader|]. split.
  - intros stream boundary.
    pose proof (init_tokens stream boundary) as T.
    set (m := MultipartReader_init stream boundary) in *.
    unfold is_boundary_delimeter_line.
    rewrite (tok_dash_boundary _ _ T).
    replace (b "--" ++ boundary ++ [LF]) with ((b "--" ++ boundary) ++ [LF])
      by (rewrite <- app_assoc; reflexivity).
    rewrite startswith_app, slice_from_nat, drop_app_length.
    cbn [fst skipLWSPChar py_in existsb byte_index py_eq orb].
    cbn [py_eq andb length Nat.eqb]. rewrite andb_false_r.
    rewrite (tok_nl _ _ T). reflexivity.
  - eexists. split; [vm_compute; reflexivity|]. vm_compute; reflexivity.
Qed.

(** C6 (safety margin).  On a body read that goes to the byte source: when
    the delimiter token is found in the peeked window at offset [idx],
    exactly [idx] bytes are taken into the residual buffer; when it is not
    found and the window is longer than the token, exactly
    [len(window) - len(token)] bytes are; and in both cases no byte of an
    occurrence of the token in the stream is taken. *)
Theorem read_consumption_rule (boundary : bytes) (h : nat) (d : Z) (w : World)
        (p : Part) (win : bytes) (r1 : BufferedReader) :
  tokens_ok boundary (mr w) ->
  heap w !! h = Some p ->
  (Z.of_nat (length (buf p)) < d)%Z ->
  BufferedReader.peek BLOCK_SIZE (buf_reader (mr w)) = (win, r1) ->
  (forall idx : nat,
      find win (dash_boundary (mr w)) = Z.of_nat idx -> pulls_exactly h d w idx) /\
  (find win (dash_boundary (mr w)) = (-1)%Z ->
   length (dash_boundary (mr w)) < length win ->
   pulls_exactly h d w (length win - length (dash_boundary (mr w)))).
Proof.
  intros T Hh Hd P.
  pose proof (peek_spec _ _ _ _ P) as [Hwin Hun].
  assert (Hs : unread_of w = win ++ raw r1).
  { unfold unread_of. rewrite <- Hun, Hwin. reflexivity. }
  split.
  - intros idx E.
    destruct (pull_found boundary (bytes_read p =? 0)%Z (mr w) win r1 idx T P E)
      as (k & r & Hp & <-).
    apply (pulls_exactly_intro h d w p k r Hh Hd Hp).
    intros j Hj. destruct (Nat.le_gt_cases (length k) j) as [|Hlt]; [assumption|].
    apply find_found in E as (_ & Hle & Hmin).
    rewrite Hs in Hj. apply startswith_drop_app in Hj; [|lia].
    rewrite (Hmin j Hlt) in Hj. discriminate.
  - intros E Hlen.
    destruct (pull_safe boundary (bytes_read p =? 0)%Z (mr w) win r1 T P E Hlen)
      as (k & r & Hp & <-).
    apply (pulls_exactly_intro h d w p k r Hh Hd Hp).
    intros j Hj. destruct (Nat.le_gt_cases (length k) j) as [|Hlt]; [assumption|].
    pose proof (pull_safe boundary (bytes_read p =? 0)%Z (mr w) win r1 T P E Hlen)
      as (k' & r' & Hp' & Hk').
    rewrite Hp in Hp'. injection Hp' as <- <-.
    rewrite Hs in Hj. apply startswith_drop_app in Hj; [|lia].
    rewrite (find_not_found _ _ j E) in Hj. discriminate.
Qed.

(** C7 (empty body).  When the header block of a fresh part is followed at
    once by a delimiter or final-boundary token, [read()] returns empty
    bytes after a single peek and leaves the unread bytes as they were. *)
Theorem empty_body_read (fuel h : nat) (w : World) (p : Part)
        (win : bytes) (r1 : BufferedReader) :
  heap w !! h = Some p ->
  closed p = false -> buf p = [] -> bytes_read p = 0%Z ->
  startswith (unread_of w) (dash_boundary (mr w)) = true ->
  BufferedReader.peek BLOCK_SIZE (buf_reader (mr w)) = (win, r1) ->
  Part_read (S fuel) h None w = Ret (VBytes []) (set_reader r1 w) /\
  unread_of (set_reader r1 w) = unread_of w.
Proof.
  intros Hh Hc Hb Hz Hs P.
  pose proof (peek_spec _ _ _ _ P) as [Hwin Hun].
  split; [|exact Hun].
  assert (Hp : pull (bytes_read p =? 0)%Z (mr w) = ([], r1)).
  { unfold pull. rewrite P.
    destruct ((bytes_read p =? 0)%Z && peek_buffer_is_empty_part (mr w) win); [reflexivity|].
    unfold unread_of in Hs. rewrite <- Hun in Hs. unfold BufferedReader.unread in Hs.
    rewrite <- Hwin in Hs.
    destruct (Nat.le_gt_cases (length (dash_boundary (mr w))) (length win)) as [Hle|Hgt].
    - apply (startswith_drop_app win (raw r1) _ 0) in Hs; [|simpl; lia].
      rewrite drop_0 in Hs. rewrite (find_startswith _ _ Hs). reflexivity.
    - destruct (find_cases win (dash_boundary (mr w))) as [E|[idx E]].
      + rewrite E. cbn [Z.eqb negb].
        destruct (Z.gtb_spec (Z.of_nat (length win) - Z.of_nat (length (dash_boundary (mr w)))) 0);
          [lia|].
        destruct (Z.eqb_spec (Z.of_nat (length win) - Z.of_nat (length (dash_boundary (mr w)))) 0);
          [lia | reflexivity].
      + apply find_found in E as (_ & Hle & _). lia. }
  destruct (PartReader_read_stream h BLOCK_SIZE w p [] r1 Hh) as (v & E & Hv & Ht);
    [rewrite Hb; simpl; unfold BLOCK_SIZE; lia | intros _; exact Hb | exact Hp |].
  rewrite Hb in E, Hv. simpl app in E, Hv. rewrite slice_to_nil in E, Hv.
  rewrite slice_from_nil in E.
  assert (Hsame : finally_count (VBytes []) (set_buf [] p) = p).
  { destruct p as [pb pr ph pc]. simpl in Hb. subst pb.
    unfold finally_count, set_buf. simpl. f_equal. lia. }
  rewrite Hsame, (set_part_same h p (set_reader r1 w) Hh) in E.
  unfold Part_read. rewrite Hh, Hc. simpl. rewrite E. simpl.
  rewrite Ht, Hv. reflexivity.
Qed.

(** C8 (chunk size).  Reading a body with [read(1)] until the chunk is empty
    and reading it with one [read()] give the same bytes. *)
Theorem chunk_size_independence (fuel h : nat) (w : World) (p : Part) :
  heap w !! h = Some p ->
  closed p = false -> part_inv p ->
  length (buf p) + length (unread_of w) < fuel ->
  exists data w1 w2,
    Part_read fuel h None w = Ret (VBytes data) w1 /\
    read_in_chunks fuel h 1 [] w = Ret data w2.
Proof.
  intros Hh Hc Hinv Hf.
  destruct (Body_exists (length (unread_of w)) (bytes_read p =? 0)%Z (mr w)) as [body HB];
    [reflexivity|].
  destruct (read_in_chunks_body _ fuel h (Z.to_nat BLOCK_SIZE) w p [] body
              ltac:(unfold BLOCK_SIZE; lia) Hh Hc Hinv (Nat.le_refl _) Hf HB) as [w1 H1].
  destruct (read_in_chunks_body _ fuel h 1 w p [] body
              ltac:(lia) Hh Hc Hinv (Nat.le_refl _) Hf HB) as [w2 H2].
  exists ([] ++ buf p ++ body), w1, w2. split; [|exact H2].
  unfold Part_read. rewrite Hh, Hc.
  rewrite (Part_read_all_chunks fuel h [] w p Hh Hc).
  replace BLOCK_SIZE with (Z.of_nat (Z.to_nat BLOCK_SIZE)) by (unfold BLOCK_SIZE; lia).
  rewrite H1. reflexivity.
Qed.

Lemma read_consumption_rule_witness : pulls_exactly 0 4096 scenario_a 7.
Proof.
  refine (proj1 (read_consumption_rule XYZ 0 4096 scenario_a _ _ _ _ _ _ _) 7 _).
  - split; vm_compute; reflexivity.
  - vm_compute; reflexivity.
  - vm_compute; reflexivity.
  - vm_compute; reflexivity.
  - vm_compute; reflexivity.
Defined.

Lemma empty_body_read_witness :
  exists r1, Part_read 1 0 None empty_body_a = Ret (VBytes []) (set_reader r1 empty_body_a).
Proof.
  eexists.
  refine (proj1 (empty_body_read 0 0 empty_body_a _ _ _ _ _ _ _ _ _)).
  - vm_compute; reflexivity.
  - vm_compute; reflexivity.
  - vm_compute; reflexivity.
  - vm_compute; reflexivity.
  - vm_compute; reflexivity.
  - vm_compute; reflexivity.
Defined.

Lemma chunk_size_independence_witness :
  exists data w1 w2,
    Part_read 200 0 None scenario_a = Ret (VBytes data) w1 /\
    read_in_chunks 200 0 1 [] scenario_a = Ret data w2.
Proof.
  refine (chunk_size_independence 200 0 scenario_a _ _ _ _ _).
  - vm_compute; reflexivity.
  - vm_compute; reflexivity.
  - split; [vm_compute; discriminate | intros _; vm_compute; reflexivity].
  - vm_compute; lia.
Defined.

(** C10 (forward progress).  The claim fails: on an empty stream
    [next_part] never returns, whatever the boundary and the fuel. *)
Lemma readline_at_eof :
  BufferedReader.readline {| buffered := []; raw := [] |}
  = ([], {| buffered := []; raw := [] |}).
Proof.
  vm_compute. reflexivity.
Qed.

Lemma peek_at_eof (n : Z) :
  BufferedReader.peek n {| buffered := []; raw := [] |}
  = ([], {| buffered := []; raw := [] |}).
Proof.
  vm_compute. reflexivity.
Qed.

Lemma startswith_nil_token (boundary t : bytes) :
  startswith [] ((b "--" ++ boundary) ++ t) = false.
Proof. reflexivity. Qed.

Lemma next_part_loop_at_eof (boundary : bytes) (fuel : nat) (w : World) :
  tokens_ok boundary (mr w) ->
  buf_reader (mr w) = {| buffered := []; raw := [] |} ->
  parts_read (mr w) = 0%Z ->
  next_part_loop fuel false w = OutOfFuel.
Proof.
  intros T Hr Hp. induction fuel as [|fuel IH]; [reflexivity|].
  cbn [next_part_loop]. rewrite Hr, readline_at_eof, peek_at_eof.
  assert (Hw : set_reader {| buffered := []; raw := [] |} w = w).
  { destruct w as [[] ?]. simpl in Hr. subst. reflexivity. }
  rewrite Hw. unfold is_final_boundary, is_boundary_delimeter_line.
  rewrite (tok_dash_boundary_dash _ _ T), (tok_dash_boundary _ _ T).
  rewrite startswith_nil_token.
  rewrite <- (app_nil_r (b "--" ++ boundary)), startswith_nil_token.
  cbn [negb andb length Nat.eqb mr].
  rewrite (tok_dash_boundary_dash _ _ T), startswith_nil_token, Hp.
  cbn [negb Z.eqb].
  replace {| mr := mr w; heap := heap w |} with w by (destruct w; reflexivity).
  exact IH.
Qed.

Theorem next_part_never_returns_at_eof (boundary : bytes) (fuel : nat) :
  next_part fuel (World_init [] boundary) = OutOfFuel.
Proof.
  unfold next_part, close_current_part. simpl.
  apply (next_part_loop_at_eof boundary); [apply init_tokens | reflexivity | reflexivity].
Qed.

(** A reader whose current part is closed cannot advance. *)
Lemma next_part_closed_current (fuel h : nat) (w : World) (p : Part) :
  current_part (mr w) = Some h ->
  heap w !! h = Some p -> closed p = true ->
  next_part (S fuel) w = Raise PartAlreadyClosed w.
Proof.
  intros Hc Hh Hcl. unfold next_part, close_current_part, Part_close. rewrite Hc.
  simpl. unfold Part_read. rewrite Hh, Hcl. reflexivity.
Qed.

(** The terminal indicator.  Once the current part is drained, a line that
    starts with the final-delimiter token makes [next_part] return the
    terminal indicator; nothing but the position of the byte source
    changes, so the reader keeps no record of having finished. *)
Lemma next_part_final_boundary (boundary : bytes) (fuel : nat) (w w1 : World)
        (line : bytes) (r1 : BufferedReader) :
  close_current_part (S fuel) w = Ret tt w1 ->
  tokens_ok boundary (mr w1) ->
  BufferedReader.readline (buf_reader (mr w1)) = (line, r1) ->
  startswith line (dash_boundary_dash (mr w1)) = true ->
  next_part (S fuel) w
  = Ret None (set_reader (snd (BufferedReader.peek 1 r1)) w1).
Proof.
  intros Hcl T Hl Hf. unfold next_part. rewrite Hcl. cbn [bind].
  cbn [next_part_loop]. rewrite Hl.
  destruct (BufferedReader.peek 1 r1) as [is_EOF r2]. cbn [snd].
  assert (Hfin : is_final_boundary (mr (set_reader r2 w1)) line = true).
  { unfold is_final_boundary. cbn [mr set_reader set_buf_reader dash_boundary_dash].
    rewrite Hf. reflexivity. }
  rewrite Hfin. destruct (length is_EOF =? 0); [reflexivity|]. cbn [andb].
  assert (Hd : is_boundary_delimeter_line (mr (set_reader r2 w1)) line
               = (false, mr (set_reader r2 w1))).
  { rewrite (surjective_pairing (is_boundary_delimeter_line _ _)).
    rewrite is_boundary_delimeter_line_keeps_reader. f_equal.
    pose proof (is_boundary_delimeter_line_keeps_reader (mr (set_reader r2 w1)) line) as Hk.
    revert Hk. unfold is_boundary_delimeter_line.
    cbn [mr set_reader set_buf_reader dash_boundary nl parts_read nl_dash_boundary].
    rewrite (tok_dash_boundary_dash _ _ T) in Hf.
    apply startswith_iff in Hf as [t ->].
    rewrite (tok_dash_boundary _ _ T), <- app_assoc, startswith_app.
    rewrite slice_from_nat, drop_app_length, skipLWSPChar_id.
    cbn [fst snd]. intros ->. cbn [nl set_buf_reader].
    rewrite (tok_nl _ _ T). reflexivity. }
  rewrite Hd. cbn [mr]. rewrite Hfin. destruct w1; reflexivity.
Qed.

Lemma next_part_final_boundary_witness :
  exists line r1,
    BufferedReader.readline
      (buf_reader (mr (world_of (close_current_part 8 scenario_b) scenario_b)))
    = (line, r1) /\
    next_part 8 scenario_b
    = Ret None (set_reader (snd (BufferedReader.peek 1 r1))
                           (world_of (close_current_part 8 scenario_b) scenario_b)).
Proof.
  do 2 eexists. split; [vm_compute; reflexivity|].
  refine (next_part_final_boundary XYZ 7 scenario_b _ _ _ _ _ _ _).
  - vm_compute; reflexivity.
  - split; vm_compute; reflexivity.
  - vm_compute; reflexivity.
  - vm_compute; reflexivity.
Defined.

(** C1 (round trip).  The claim fails on the running example: the body read
    back for the payload [hello] is [hello] followed by the CR LF that
    precedes the next delimiter; and a payload holding [--XYZ] inside a line
    is cut at that token, after which [next_part] raises. *)
Theorem round_trip_keeps_delimiter_newline :
  (exists w2,
      next_part 8 scenario_0 = Ret (Some 0) scenario_a /\
      Part_read 8 0 None scenario_a = Ret (VBytes (b "hello" ++ CRLF)) w2) /\
  (exists w1 w2 w3 e,
      next_part 8 (World_init embedded XYZ) = Ret (Some 0) w1 /\
      Part_read 8 0 None w1 = Ret (VBytes (b "a")) w2 /\
      next_part 8 w2 = Raise e w3).
Proof.
  split.
  - eexists. split; [vm_compute; reflexivity|]. vm_compute; reflexivity.
  - do 4 eexists. split; [vm_compute; reflexivity|].
    split; [vm_compute; reflexivity|]. vm_compute; reflexivity.
Qed.

(** C9 (read counter).  The claim fails on the running example: after two
    [read(1)] calls that returned [h] and [e], the second served from the
    residual buffer, [bytes_read] is 1. *)
Theorem bytes_read_misses_buffered_read :
  exists w1 w2 p,
    Part_read 8 0 (Some 1%Z) scenario_a = Ret (VBytes (b "h")) w1 /\
    Part_read 8 0 (Some 1%Z) w1 = Ret (VBytes (b "e")) w2 /\
    heap w2 !! 0 = Some p /\ bytes_read p = 1%Z.
Proof.
  do 3 eexists. split; [vm_compute; reflexivity|].
  split; [vm_compute; reflexivity|]. split; vm_compute; reflexivity.
Qed.

(** C3 (idempotent close).  The claim fails on the running example: the
    first [close()] of part [a] succeeds, and every later [close()] raises
    [IOError("Part already closed")]. *)
Theorem close_twice_raises :
  exists w1,
    Part_close 8 0 scenario_a = Ret tt w1 /\
    forall fuel, Part_close (S fuel) 0 w1 = Raise PartAlreadyClosed w1.
Proof.
  eexists. split; [vm_compute; reflexivity|].
  intros fuel. reflexivity.
Qed.

(** * Further properties of the code *)

(** * More on one body read *)

Lemma set_reader_same (w : World) : set_reader (buf_reader (mr w)) w = w.
Proof. destruct w as [[] ?]. reflexivity. Qed.

Lemma slice_to_length (d : Z) (l : bytes) :
  (0 <= d)%Z -> Z.of_nat (length (slice_to d l)) = Z.min d (Z.of_nat (length l)).
Proof.
  intros Hd. unfold slice_to, py_bound.
  destruct (Z.ltb_spec d 0); [lia|]. rewrite length_take. lia.
Qed.

(** A read that goes to the byte source, in its two forms: the early return
    of the empty-part test, and the return after the scan. *)
Lemma PartReader_read_scan (h : nat) (d : Z) (w : World) (p : Part)
      (k : bytes) (r : BufferedReader) :
  heap w !! h = Some p ->
  (Z.of_nat (length (buf p)) < d)%Z ->
  pull (bytes_read p =? 0)%Z (mr w) = (k, r) ->
  (_PartReader_read h d w = Ret (VStr EmptyString) (set_part h p (set_reader r w))
   /\ k = [] /\ bytes_read p = 0%Z) \/
  _PartReader_read h d w
  = Ret (VBytes (slice_to d (buf p ++ k)))
        (set_part h (finally_count (VBytes (slice_to d (buf p ++ k)))
                                   (set_buf (slice_from d (buf p ++ k)) p))
                  (set_reader r w)).
Proof.
  intros Hh Hd Hpull. unfold _PartReader_read. rewrite Hh.
  destruct (Z.geb_spec (Z.of_nat (length (buf p))) d); [lia|].
  unfold pull in Hpull.
  destruct (BufferedReader.peek BLOCK_SIZE (buf_reader (mr w))) as [win r1].
  destruct ((bytes_read p =? 0)%Z && peek_buffer_is_empty_part (mr w) win) eqn:Ee.
  - injection Hpull as <- <-. left. rewrite finally_count_empty.
    apply andb_true_iff in Ee as [Hz%Z.eqb_eq _]. auto.
  - right. unfold Buff.init, Buff.read. cbn [fst].
    revert Hpull.
    set (idx := find win (dash_boundary (mr w))).
    set (safe_count := (Z.of_nat (length win) - Z.of_nat (length (dash_boundary (mr w))))%Z).
    destruct (idx =? -1)%Z eqn:Ei; cbn [negb andb].
    + destruct (safe_count >? 0)%Z eqn:Es.
      * intros ->. rewrite Es. reflexivity.
      * destruct (safe_count =? 0)%Z eqn:E0.
        -- intros ->. reflexivity.
        -- intros [= <- <-]. cbn [Z.gtb Z.compare]. rewrite app_nil_r. reflexivity.
    + destruct (idx >? 0)%Z eqn:Eg.
      * intros ->. reflexivity.
      * intros [= <- <-]. rewrite app_nil_r. reflexivity.
Qed.

(** Every outcome of [_PartReader.read], in one statement. *)
Lemma PartReader_read_cases (h : nat) (d : Z) (w : World) (p : Part) :
  heap w !! h = Some p ->
  exists v bufnew n r,
    _PartReader_read h d w
    = Ret v (set_part h {| buf := bufnew;
                           bytes_read := (bytes_read p + Z.of_nat n)%Z;
                           header_lines := header_lines p;
                           closed := closed p |} (set_reader r w)) /\
    py_bytes v ++ bufnew ++ BufferedReader.unread r = buf p ++ unread_of w /\
    (n = 0 \/ n = length (py_bytes v)) /\
    (v = VStr EmptyString \/ exists l, v = VBytes l) /\
    ((0 <= d)%Z -> (Z.of_nat (length (py_bytes v)) <= d)%Z) /\
    (part_inv p -> n = 0 -> bufnew = [] \/ bytes_read p <> 0%Z).
Proof.
  intros Hh.
  destruct (Z.le_gt_cases d (Z.of_nat (length (buf p)))) as [Hfast|Hslow].
  - exists (VBytes (slice_to d (buf p))), (slice_from d (buf p)), 0, (buf_reader (mr w)).
    rewrite (PartReader_read_buffer h d w p Hh Hfast), set_reader_same.
    split; [unfold set_buf; do 3 f_equal; lia|].
    split; [cbn [py_bytes]; rewrite app_assoc, slice_to_from; reflexivity|].
    split; [auto|]. split; [eauto|].
    split; [intros Hd; cbn [py_bytes]; rewrite slice_to_length by lia; lia|].
    intros [_ Hinv] _.
    destruct (Z.eq_dec (bytes_read p) 0%Z) as [Hz|]; [|auto].
    left. rewrite (Hinv Hz). apply slice_from_nil.
  - destruct (pull (bytes_read p =? 0)%Z (mr w)) as [k r] eqn:P.
    pose proof (pull_spec _ _ _ _ P) as [Hk Hu].
    assert (Hcons : k ++ BufferedReader.unread r = unread_of w).
    { unfold unread_of. rewrite Hu. rewrite Hk at 1. apply take_drop. }
    destruct (PartReader_read_scan h d w p k r Hh ltac:(lia) P) as [(E & -> & Hz)|E].
    + exists (VStr EmptyString), (buf p), 0, r. rewrite E.
      split; [do 2 f_equal; destruct p; simpl; f_equal; lia|].
      split; [simpl; rewrite <- Hcons; reflexivity|].
      split; [auto|]. split; [auto|]. split; [simpl; lia|].
      intros [_ Hinv] _. left. exact (Hinv Hz).
    + exists (VBytes (slice_to d (buf p ++ k))), (slice_from d (buf p ++ k)),
             (length (slice_to d (buf p ++ k))), r.
      rewrite E. split; [reflexivity|].
      split; [cbn [py_bytes]; rewrite app_assoc, slice_to_from, <- app_assoc, Hcons; reflexivity|].
      split; [auto|]. split; [eauto|].
      split; [intros Hd; cbn [py_bytes]; rewrite slice_to_length by lia; lia|].
      intros _ Hn. left.
      pose proof (slice_to_from d (buf p ++ k)) as Hsf.
      destruct (slice_to d (buf p ++ k)) eqn:Est; [|discriminate].
      assert (Hb : Z.of_nat (length (slice_to d (buf p ++ k)))
                   = Z.min d (Z.of_nat (length (buf p ++ k)))) by (apply slice_to_length; lia).
      rewrite Est in Hb. simpl length in Hb.
      destruct (buf p ++ k) eqn:Ebk; [apply slice_from_nil|]. simpl length in Hb. lia.
Qed.

(** * Draining a part *)

Lemma Drain_exists (n : nat) (first : bool) (m : MultipartReader) :
  length (BufferedReader.unread (buf_reader m)) <= n ->
  exists body rf, Drain first m body rf.
Proof.
  revert first m; induction n as [|n IH]; intros first m Hn;
    destruct (pull first m) as [k r] eqn:P;
    pose proof (pull_length _ _ _ _ P) as Hl;
    (destruct k as [|x k]; [exists [], r; eapply Drain_stop; exact P|]);
    cbn [length] in Hl.
  - lia.
  - destruct (IH false (set_buf_reader r m)) as (rest & rf & Hrest).
    + cbn [buf_reader set_buf_reader]. lia.
    + exists ((x :: k) ++ rest), rf.
      eapply Drain_more; [exact P | discriminate | exact Hrest].
Qed.

Lemma Drain_Body (first : bool) (m : MultipartReader) (body : bytes)
      (rf : BufferedReader) :
  Drain first m body rf -> Body first m body.
Proof.
  induction 1 as [first m r P|first m k r rest rf P Hk _ IH].
  - eapply Body_stop; exact P.
  - eapply Body_more; [exact P | exact Hk | exact IH].
Qed.

(** Draining neither loses nor reorders bytes. *)
Lemma Drain_unread (first : bool) (m : MultipartReader) (body : bytes)
      (rf : BufferedReader) :
  Drain first m body rf ->
  body ++ BufferedReader.unread rf = BufferedReader.unread (buf_reader m).
Proof.
  induction 1 as [first m r P|first m k r rest rf P Hk _ IH].
  - apply pull_spec in P as [_ Hu]. rewrite Hu. reflexivity.
  - apply pull_spec in P as [Hk' Hu]. cbn [buf_reader set_buf_reader] in IH.
    rewrite <- app_assoc, IH, Hu. rewrite Hk' at 1. apply take_drop.
Qed.

Lemma set_part_set_part (h : nat) (p1 p2 : Part) (w : World) :
  set_part h p2 (set_part h p1 w) = set_part h p2 w.
Proof. unfold set_part. simpl. f_equal. apply list_insert_insert_eq. Qed.

Lemma set_part_set_reader (h : nat) (p1 p2 : Part) (r1 r2 : BufferedReader) (w : World) :
  set_part h p2 (set_reader r2 (set_part h p1 (set_reader r1 w)))
  = set_part h p2 (set_reader r2 w).
Proof. unfold set_part, set_reader. simpl. f_equal. apply list_insert_insert_eq. Qed.

(** The caller's loop, with the store it leaves: the part ends with an empty
    residual buffer, and the byte source is the one the last pull left. *)
Lemma read_in_chunks_drain (n : nat) :
  forall (fuel h : nat) (dn : nat) (w : World) (p : Part) (data0 body : bytes)
         (rf : BufferedReader),
    0 < dn ->
    heap w !! h = Some p -> closed p = false -> part_inv p ->
    length (buf p) + length (unread_of w) <= n -> n < fuel ->
    Drain (bytes_read p =? 0)%Z (mr w) body rf ->
    exists p',
      read_in_chunks fuel h (Z.of_nat dn) data0 w
      = Ret (data0 ++ buf p ++ body) (set_part h p' (set_reader rf w)) /\
      buf p' = [] /\ closed p' = false /\ header_lines p' = header_lines p /\
      part_inv p' /\ (bytes_read p <= bytes_read p')%Z.
Proof.
  induction n as [n IH] using lt_wf_ind.
  intros fuel h dn w p data0 body rf Hd Hh Hc [Hge Hinv] Hn Hf HB.
  unfold unread_of in *.
  destruct fuel as [|fuel]; [lia|].
  simpl. unfold Part_read. rewrite Hh, Hc.
  destruct (Nat.le_gt_cases dn (length (buf p))) as [Hfast|Hslow].
  - rewrite (PartReader_read_buffer h _ w p Hh) by lia.
    rewrite slice_to_nat, slice_from_nat. simpl.
    assert (Hlt : length (take dn (buf p)) = dn) by (rewrite length_take; lia).
    rewrite Hlt. destruct dn as [|dn']; [lia|]. simpl negb. cbv iota.
    set (p1 := set_buf (drop (S dn') (buf p)) p).
    destruct (IH (n - 1)) with (fuel := fuel) (h := h) (dn := S dn')
      (w := set_part h p1 w) (p := p1) (data0 := data0 ++ take (S dn') (buf p))
      (body := body) (rf := rf)
      as (p' & Hw' & Hb' & Hc' & Hh' & Hi' & Hr'); try lia.
    + eapply lookup_set_part; exact Hh.
    + exact Hc.
    + split; [exact Hge|]. intros Hz. simpl. rewrite (Hinv Hz). apply drop_nil.
    + unfold unread_of, p1 in *. simpl. rewrite length_drop. lia.
    + exact HB.
    + exists p'. rewrite Hw'. split; [|auto].
      f_equal.
      * unfold p1. simpl. rewrite <- !app_assoc. f_equal.
        rewrite app_assoc, take_drop. reflexivity.
      * unfold set_part, set_reader. simpl. f_equal. apply list_insert_insert_eq.
  - destruct (pull (bytes_read p =? 0)%Z (mr w)) as [k r] eqn:P.
    destruct (PartReader_read_stream h (Z.of_nat dn) w p k r Hh ltac:(lia) Hinv P)
      as (v & -> & Hv & Ht).
    pose proof (pull_length _ _ _ _ P) as Hl.
    simpl. rewrite Ht, Hv, slice_to_nat, slice_from_nat.
    set (out := take dn (buf p ++ k)).
    set (p1 := finally_count (VBytes out) (set_buf (drop dn (buf p ++ k)) p)).
    assert (Hout : length out = Nat.min dn (length (buf p) + length k))
      by (unfold out; rewrite length_take, length_app; reflexivity).
    destruct (length out) as [|lo] eqn:Elo.
    + assert (buf p = [] /\ k = []) as [Eb Ek].
      { destruct (buf p), k; simpl in *; try lia; auto. }
      simpl. subst k.
      inversion HB as [? ? r' P'|? ? k' r' ? ? P' Hne]; subst.
      * rewrite P in P'. injection P' as <-.
        exists p1. split; [rewrite Eb, app_nil_r; reflexivity|].
        unfold p1. simpl. rewrite Eb. simpl. rewrite drop_nil.
        split; [reflexivity|]. split; [exact Hc|]. split; [reflexivity|].
        split; [split; [simpl; lia | reflexivity] | lia].
      * rewrite P in P'. congruence.
    + simpl negb. cbv iota.
      assert (Hh1 : heap (set_part h p1 (set_reader r w)) !! h = Some p1)
        by (apply (lookup_set_part h p1 p (set_reader r w)); exact Hh).
      assert (Hpos : (bytes_read p1 =? 0)%Z = false).
      { apply Z.eqb_neq. unfold p1. simpl. rewrite Elo. lia. }
      assert (Hinv1 : part_inv p1).
      { split; [unfold p1; simpl; lia|]. intros Hz. apply Z.eqb_neq in Hpos. contradiction. }
      assert (HB1 : exists rest, Drain false (set_buf_reader r (mr w)) rest rf /\ body = k ++ rest).
      { inversion HB as [? ? r' P'|? ? k' r' rest ? P' Hne Hrest]; subst.
        - rewrite P in P'. injection P' as -> <-.
          exists []. split; [|reflexivity].
          destruct (bytes_read p =? 0)%Z eqn:Ez.
          + apply Z.eqb_eq in Ez. rewrite (Hinv Ez) in *. simpl in *. lia.
          + eapply Drain_stop. apply pull_nothing_again. exact P.
        - rewrite P in P'. injection P' as <- <-. eauto. }
      destruct HB1 as (rest & Hrest & ->).
      destruct (IH (n - 1)) with (fuel := fuel) (h := h) (dn := dn)
        (w := set_part h p1 (set_reader r w)) (p := p1) (data0 := data0 ++ out)
        (body := rest) (rf := rf)
        as (p' & Hw' & Hb' & Hc' & Hh' & Hi' & Hr'); try lia; try assumption.
      * unfold unread_of, p1 in *.
        cbn [buf mr set_part set_reader finally_count set_buf buf_reader set_buf_reader].
        rewrite length_drop, length_app. lia.
      * rewrite Hpos. exact Hrest.
      * exists p'. rewrite Hw'.
        split; [|split; [exact Hb'|split; [exact Hc'|split; [exact Hh'|split; [exact Hi'|]]]]].
        -- f_equal.
           ++ unfold p1, out. simpl. rewrite <- !app_assoc. f_equal.
              rewrite (app_assoc (take _ _)), take_drop, <- app_assoc. reflexivity.
           ++ apply set_part_set_reader.
        -- unfold p1 in Hr'. simpl in Hr'. lia.
Qed.

(** X1 (invariant of a part).  One body read always returns, and it keeps
    what holds of a part from its creation on: the counter [bytes_read] is
    not negative, and the residual buffer is empty as long as the counter is
    zero. *)
Theorem read_keeps_part_inv (h : nat) (d : Z) (w : World) (p : Part) :
  heap w !! h = Some p -> part_inv p ->
  part_inv Part_init /\
  exists v w' p',
    _PartReader_read h d w = Ret v w' /\ heap w' !! h = Some p' /\ part_inv p'.
Proof.
  intros Hh Hinv. split; [split; [simpl; lia | reflexivity]|].
  destruct (PartReader_read_cases h d w p Hh) as (v & bufnew & n & r & E & _ & _ & _ & _ & Hn).
  do 3 eexists. split; [exact E|].
  split; [apply (lookup_set_part h _ p (set_reader r w)); exact Hh|].
  destruct Hinv as [Hge Hz]. split; cbn [bytes_read buf]; [lia|].
  intros H0. destruct (Hn (conj Hge Hz)) as [|Hne]; [lia | assumption | lia].
Qed.

Lemma read_keeps_part_inv_witness :
  exists v w' p',
    _PartReader_read 0 1 scenario_a = Ret v w' /\ heap w' !! 0 = Some p' /\ part_inv p'.
Proof.
  refine (proj2 (read_keeps_part_inv 0 1 scenario_a _ _ _)).
  - vm_compute; reflexivity.
  - split; [vm_compute; discriminate | intros _; vm_compute; reflexivity].
Defined.

(** X2 (conservation of bytes).  One body read neither loses, duplicates nor
    reorders bytes: what it returns, then the residual buffer, then the
    unread bytes of the byte source, is after the read what the residual
    buffer and the unread bytes were before it.  The read changes only the
    part read from and the byte source, keeps the part's closed flag and
    header lines, and raises the counter by at most the number of bytes
    returned. *)
Theorem read_conserves_bytes (h : nat) (d : Z) (w : World) (p : Part) :
  heap w !! h = Some p ->
  exists v w' p',
    _PartReader_read h d w = Ret v w' /\
    heap w' = <[h := p']> (heap w) /\
    mr w' = set_buf_reader (buf_reader (mr w')) (mr w) /\
    py_bytes v ++ buf p' ++ unread_of w' = buf p ++ unread_of w /\
    closed p' = closed p /\ header_lines p' = header_lines p /\
    (bytes_read p <= bytes_read p' <= bytes_read p + Z.of_nat (length (py_bytes v)))%Z.
Proof.
  intros Hh.
  destruct (PartReader_read_cases h d w p Hh) as (v & bufnew & n & r & E & Hc & Hn & _).
  do 3 eexists. split; [exact E|]. split; [reflexivity|]. split; [reflexivity|].
  split; [exact Hc|]. split; [reflexivity|]. split; [reflexivity|].
  cbn [bytes_read]. lia.
Qed.

Lemma read_conserves_bytes_witness :
  exists v w' p',
    _PartReader_read 0 3 scenario_a = Ret v w' /\
    heap w' = <[0 := p']> (heap scenario_a) /\
    py_bytes v ++ buf p' ++ unread_of w' = unread_of scenario_a.
Proof.
  destruct (read_conserves_bytes 0 3 scenario_a
              (mkPart [] 0 [header_text (b "Content-Disposition: form-data; name=a")] false))
    as (v & w' & p' & E & Hh & _ & Hc & _); [vm_compute; reflexivity|].
  exists v, w', p'. split; [exact E|]. split; [exact Hh|]. exact Hc.
Defined.

(** X3 (length of a chunk).  [read(d)] with [d >= 0] returns at most [d]
    bytes; when the residual buffer holds [d] bytes or more, the read is
    served from it alone: the first [d] bytes are returned, the rest stays
    in the buffer, and neither the byte source nor the counter changes. *)
Theorem read_length_bound (h : nat) (d : Z) (w : World) (p : Part) :
  heap w !! h = Some p -> (0 <= d)%Z ->
  (exists v w', _PartReader_read h d w = Ret v w' /\
                (Z.of_nat (length (py_bytes v)) <= d)%Z) /\
  ((d <= Z.of_nat (length (buf p)))%Z ->
   _PartReader_read h d w
   = Ret (VBytes (take (Z.to_nat d) (buf p)))
         (set_part h (set_buf (drop (Z.to_nat d) (buf p)) p) w)).
Proof.
  intros Hh Hd. split.
  - destruct (PartReader_read_cases h d w p Hh) as (v & bufnew & n & r & E & _ & _ & _ & Hl & _).
    do 2 eexists. split; [exact E | exact (Hl Hd)].
  - intros Hle. rewrite (PartReader_read_buffer h d w p Hh Hle).
    rewrite <- (Z2Nat.id d Hd) at 1 2. rewrite slice_to_nat, slice_from_nat. reflexivity.
Qed.

Lemma read_length_bound_witness :
  exists v w', _PartReader_read 0 3 scenario_a = Ret v w' /\
               (Z.of_nat (length (py_bytes v)) <= 3)%Z.
Proof.
  refine (proj1 (read_length_bound 0 3 scenario_a _ _ _)).
  - vm_compute; reflexivity.
  - lia.
Defined.

Lemma Part_close_loop_chunks (fuel h : nat) (data : bytes) (w : World) (p : Part) :
  heap w !! h = Some p -> closed p = false ->
  Part_close_loop fuel h w = void (read_in_chunks fuel h BLOCK_SIZE data w).
Proof.
  revert data w p; induction fuel as [|fuel IH]; intros data w p Hh Hc; [reflexivity|].
  simpl. unfold Part_read. rewrite Hh, Hc.
  destruct (PartReader_read_shape h BLOCK_SIZE w p Hh) as (v & w1 & p1 & -> & Hh1 & Hc1 & Hv).
  simpl. rewrite (py_stop_test v Hv).
  destruct (negb (py_truthy v)); [reflexivity|].
  apply (IH _ _ p1); [exact Hh1 | congruence].
Qed.

(** X4 (reading a part to its end).  On an open part, with fuel for the
    bytes left, [read()] returns: it gives the residual buffer followed by
    a prefix of the unread bytes of the byte source, and leaves the residual
    buffer empty and the part open.  Reading in chunks of any positive size
    until the chunk is empty gives the same bytes and leaves the same byte
    source. *)
Theorem read_all_returns (fuel h : nat) (w : World) (p : Part) :
  heap w !! h = Some p ->
  closed p = false -> part_inv p ->
  length (buf p) + length (unread_of w) < fuel ->
  exists body rf,
    body ++ BufferedReader.unread rf = unread_of w /\
    (exists p',
        Part_read fuel h None w
        = Ret (VBytes (buf p ++ body)) (set_part h p' (set_reader rf w)) /\
        buf p' = [] /\ closed p' = false /\ header_lines p' = header_lines p) /\
    forall dn, 0 < dn ->
      exists p',
        read_in_chunks fuel h (Z.of_nat dn) [] w
        = Ret (buf p ++ body) (set_part h p' (set_reader rf w)) /\
        buf p' = [].
Proof.
  intros Hh Hc Hinv Hf.
  destruct (Drain_exists (length (unread_of w)) (bytes_read p =? 0)%Z (mr w))
    as (body & rf & HD); [reflexivity|].
  exists body, rf. split; [exact (Drain_unread _ _ _ _ HD)|]. split.
  - destruct (read_in_chunks_drain _ fuel h (Z.to_nat BLOCK_SIZE) w p [] body rf
                ltac:(unfold BLOCK_SIZE; lia) Hh Hc Hinv (Nat.le_refl _) Hf HD)
      as (p' & H1 & Hb & Hc' & Hh' & _).
    exists p'. split; [|auto].
    unfold Part_read. rewrite Hh, Hc.
    rewrite (Part_read_all_chunks fuel h [] w p Hh Hc).
    replace BLOCK_SIZE with (Z.of_nat (Z.to_nat BLOCK_SIZE)) by (unfold BLOCK_SIZE; lia).
    rewrite H1. reflexivity.
  - intros dn Hdn.
    destruct (read_in_chunks_drain _ fuel h dn w p [] body rf
                Hdn Hh Hc Hinv (Nat.le_refl _) Hf HD)
      as (p' & H1 & Hb & _).
    exists p'. split; [exact H1 | exact Hb].
Qed.

Lemma read_all_returns_witness :
  exists body rf p',
    Part_read 200 0 None scenario_a
    = Ret (VBytes body) (set_part 0 p' (set_reader rf scenario_a)).
Proof.
  destruct (read_all_returns 200 0 scenario_a
              (mkPart [] 0 [header_text (b "Content-Disposition: form-data; name=a")] false))
    as (body & rf & _ & (p' & E & _) & _).
  - vm_compute; reflexivity.
  - reflexivity.
  - split; [vm_compute; discriminate | intros _; reflexivity].
  - vm_compute; lia.
  - exists body, rf, p'. exact E.
Defined.

(** X5 ([Part.close]).  Closing an open part returns, leaves the part
    closed with an empty residual buffer and its header lines, and leaves
    the byte source where one [read()] of the whole body would have left
    it. *)
Theorem close_drains_and_closes (fuel h : nat) (w : World) (p : Part) :
  heap w !! h = Some p ->
  closed p = false -> part_inv p ->
  length (buf p) + length (unread_of w) < fuel ->
  exists body rf p' p'',
    Part_close fuel h w = Ret tt (set_part h p' (set_reader rf w)) /\
    closed p' = true /\ buf p' = [] /\ header_lines p' = header_lines p /\
    Part_read fuel h None w
    = Ret (VBytes (buf p ++ body)) (set_part h p'' (set_reader rf w)).
Proof.
  intros Hh Hc Hinv Hf.
  destruct (Drain_exists (length (unread_of w)) (bytes_read p =? 0)%Z (mr w))
    as (body & rf & HD); [reflexivity|].
  destruct (read_in_chunks_drain _ fuel h (Z.to_nat BLOCK_SIZE) w p [] body rf
              ltac:(unfold BLOCK_SIZE; lia) Hh Hc Hinv (Nat.le_refl _) Hf HD)
    as (p' & H1 & Hb & Hc' & Hh' & _).
  replace (Z.of_nat (Z.to_nat BLOCK_SIZE)) with BLOCK_SIZE in H1
    by (unfold BLOCK_SIZE; lia).
  exists body, rf, (set_closed true p'), p'.
  split; [|split; [reflexivity|split; [exact Hb|split; [exact Hh'|]]]].
  - unfold Part_close. rewrite (Part_close_loop_chunks fuel h [] w p Hh Hc), H1.
    cbn [void bind].
    rewrite (lookup_set_part h p' p (set_reader rf w) Hh).
    rewrite set_part_set_part. reflexivity.
  - unfold Part_read. rewrite Hh, Hc.
    rewrite (Part_read_all_chunks fuel h [] w p Hh Hc), H1. reflexivity.
Qed.

Lemma close_drains_and_closes_witness :
  exists rf p',
    Part_close 200 0 scenario_a = Ret tt (set_part 0 p' (set_reader rf scenario_a)) /\
    closed p' = true.
Proof.
  destruct (close_drains_and_closes 200 0 scenario_a
              (mkPart [] 0 [header_text (b "Content-Disposition: form-data; name=a")] false))
    as (body & rf & p' & p'' & E & Hc & _).
  - vm_compute; reflexivity.
  - reflexivity.
  - split; [vm_compute; discriminate | intros _; reflexivity].
  - vm_compute; lia.
  - exists rf, p'. split; [exact E | exact Hc].
Defined.

(** * Lines *)

Lemma split_line_app_Some (l ln rest more : bytes) :
  BufferedReader.split_line l = Some (ln, rest) ->
  BufferedReader.split_line (l ++ more) = Some (ln, rest ++ more).
Proof.
  revert ln rest; induction l as [|x l IH]; intros ln rest; simpl; [discriminate|].
  destruct (Byte.eqb x LF); [intros [= <- <-]; reflexivity|].
  destruct (BufferedReader.split_line l) as [[ln' rest']|]; [|discriminate].
  intros [= <- <-]. rewrite (IH ln' rest' eq_refl). reflexivity.
Qed.

Lemma split_line_app_None (l more : bytes) :
  BufferedReader.split_line l = None ->
  BufferedReader.split_line (l ++ more)
  = match BufferedReader.split_line more with
    | Some (ln, rest) => Some (l ++ ln, rest)
    | None => None
    end.
Proof.
  induction l as [|x l IH]; simpl.
  - intros _. destruct (BufferedReader.split_line more) as [[]|]; reflexivity.
  - destruct (Byte.eqb x LF); [discriminate|].
    destruct (BufferedReader.split_line l) as [[]|]; [discriminate|].
    intros _. rewrite (IH eq_refl).
    destruct (BufferedReader.split_line more) as [[]|]; reflexivity.
Qed.



Lemma first_line_nil : first_line [] = ([], []).
Proof. reflexivity. Qed.

Lemma first_line_concat (l : bytes) :
  fst (first_line l) ++ snd (first_line l) = l.
Proof.
  unfold first_line. destruct (BufferedReader.split_line l) as [[ln rest]|] eqn:E;
    [|apply app_nil_r].
  revert ln rest E; induction l as [|x l IH]; intros ln rest; simpl; [discriminate|].
  destruct (Byte.eqb x LF); [intros [= <- <-]; reflexivity|].
  destruct (BufferedReader.split_line l) as [[ln' rest']|]; [|discriminate].
  intros [= <- <-]. simpl. f_equal. apply (IH _ _ eq_refl).
Qed.

(** A line is empty only at the end of the stream. *)
Lemma first_line_empty (l : bytes) : fst (first_line l) = [] -> l = [].
Proof.
  unfold first_line. destruct l as [|x l]; [reflexivity|]. simpl.
  destruct (Byte.eqb x LF); [discriminate|].
  destruct (BufferedReader.split_line l) as [[]|]; discriminate.
Qed.

(** * The byte source when everything is in the buffer *)






(** * Delimiter lines *)



(** A line that starts with the final-delimiter token is not a delimiter
    line. *)
Lemma final_line_not_delimiter (boundary : bytes) (m : MultipartReader) (line : bytes) :
  tokens_ok boundary m ->
  startswith line (dash_boundary_dash m) = true ->
  is_boundary_delimeter_line m line = (false, m).
Proof.
  intros T Hf.
  rewrite (surjective_pairing (is_boundary_delimeter_line _ _)).
  rewrite is_boundary_delimeter_line_keeps_reader. f_equal.
  pose proof (is_boundary_delimeter_line_keeps_reader m line) as Hk.
  revert Hk. unfold is_boundary_delimeter_line.
  rewrite (tok_dash_boundary_dash _ _ T) in Hf.
  apply startswith_iff in Hf as [t ->].
  rewrite (tok_dash_boundary _ _ T), <- app_assoc, startswith_app.
  rewrite slice_from_nat, drop_app_length, skipLWSPChar_id.
  cbn [fst snd]. intros ->. rewrite (tok_nl _ _ T). reflexivity.
Qed.


(** * Header blocks *)


(** * Bodies in the buffer *)







(** * [next_part] on a framed stream held in the buffer *)

Lemma tokens_ok_set_buf_reader (boundary : bytes) (r : BufferedReader)
      (m : MultipartReader) :
  tokens_ok boundary m -> tokens_ok boundary (set_buf_reader r m).
Proof. intros []; split; assumption. Qed.




















(** * Edge behaviour of the scan *)

Lemma find_too_short (l sub : bytes) :
  length l < length sub -> find l sub = (-1)%Z.
Proof.
  intros H. destruct (find_cases l sub) as [E|[idx E]]; [exact E|].
  apply find_found in E as (_ & Hle & _). lia.
Qed.

Lemma find_same_length (l sub : bytes) :
  length l = length sub -> l <> sub -> find l sub = (-1)%Z.
Proof.
  intros Hlen Hne. destruct (find_cases l sub) as [E|[idx E]]; [exact E|].
  apply find_found in E as (Hs & Hle & _).
  assert (idx = 0) as -> by lia. rewrite drop_0 in Hs.
  apply startswith_iff in Hs as [t ->]. rewrite length_app in Hlen.
  destruct t; [rewrite app_nil_r in Hne; contradiction | simpl in Hlen; lia].
Qed.

Lemma startswith_too_short (l sub : bytes) :
  length l < length sub -> startswith l sub = false.
Proof.
  intros H. destruct (startswith l sub) eqn:E; [|reflexivity].
  apply startswith_length in E. lia.
Qed.

(** X8 (a delimiter across the edge of the window).  When the peeked window
    is exactly as long as the delimiter token without being the token, a
    body read takes the whole window, also when the window ends with the
    first bytes of a delimiter that goes on in the bytes not yet read ahead:
    those bytes are delivered as body, and what is left unread starts in
    the middle of the delimiter. *)
Theorem window_of_token_length_is_taken (boundary : bytes) (h : nat) (d : Z)
        (w : World) (p : Part) (pre x y rest : bytes) :
  tokens_ok boundary (mr w) ->
  heap w !! h = Some p ->
  (Z.of_nat (length (buf p)) < d)%Z ->
  buffered (buf_reader (mr w)) = pre ++ x ->
  raw (buf_reader (mr w)) = y ++ rest ->
  x ++ y = dash_boundary (mr w) ->
  length (pre ++ x) = length (dash_boundary (mr w)) ->
  pre ++ x <> dash_boundary (mr w) ->
  startswith (drop (length pre) (unread_of w)) (dash_boundary (mr w)) = true /\
  exists v w' p',
    _PartReader_read h d w = Ret v w' /\ heap w' !! h = Some p' /\
    py_bytes v ++ buf p' = buf p ++ pre ++ x /\
    unread_of w' = y ++ rest.
Proof.
  intros T Hh Hd Hb Hraw Htok Hlen Hne. split.
  - unfold unread_of, BufferedReader.unread. rewrite Hb, Hraw, <- app_assoc.
    rewrite drop_app_length, app_assoc, Htok. apply startswith_app.
  - assert (Hwin : pre ++ x <> []).
    { intros E. rewrite E in Hlen. rewrite (tok_dash_boundary _ _ T) in Hlen.
      simpl in Hlen. lia. }
    assert (P : pull (bytes_read p =? 0)%Z (mr w)
                = (pre ++ x, {| buffered := []; raw := y ++ rest |})).
    { unfold pull, BufferedReader.peek. rewrite Hb.
      destruct (pre ++ x) as [|c u] eqn:Eu; [contradiction|]. rewrite <- Eu in *.
      assert (He : peek_buffer_is_empty_part (mr w) (pre ++ x) = false).
      { unfold peek_buffer_is_empty_part.
        assert (Hdd : length (dash_boundary_dash (mr w))
                      = length (dash_boundary (mr w)) + 2).
        { rewrite (tok_dash_boundary_dash _ _ T), (tok_dash_boundary _ _ T), length_app.
          reflexivity. }
        rewrite (startswith_too_short (pre ++ x) (dash_boundary_dash (mr w))) by lia.
        destruct (startswith (pre ++ x) (dash_boundary (mr w))) eqn:Es; [|reflexivity].
        apply startswith_iff in Es as [t Et].
        assert (t = []) as ->.
        { apply (f_equal length) in Et. rewrite Hlen, length_app in Et.
          destruct t; [reflexivity | simpl in Et; lia]. }
        rewrite app_nil_r in Et. contradiction. }
      rewrite He, andb_false_r.
      rewrite (find_same_length _ _ Hlen Hne). cbn [Z.eqb negb].
      rewrite Hlen, Z.sub_diag. cbn [Z.gtb Z.compare Z.eqb].
      unfold BufferedReader.read. rewrite Hb, <- Hlen, Nat.leb_refl, Hraw.
      rewrite take_ge, drop_ge by lia. reflexivity. }
    destruct (PartReader_read_pull h d w p _ _ Hh Hd P) as (v & p' & E & Hcons).
    exists v, (set_part h p' (set_reader {| buffered := []; raw := y ++ rest |} w)), p'.
    split; [exact E|].
    split; [apply (lookup_set_part h p' p (set_reader _ w)); exact Hh|].
    split; [exact Hcons | reflexivity].
Qed.

(** X9 (short tail).  When fewer bytes are left in the stream than the
    delimiter token is long, [read()] on a part with an empty residual
    buffer returns no byte and consumes none: that tail is never
    delivered. *)
Theorem short_tail_is_never_delivered (fuel h : nat) (w : World) (p : Part) :
  heap w !! h = Some p ->
  closed p = false -> buf p = [] ->
  length (unread_of w) < length (dash_boundary (mr w)) ->
  exists w',
    Part_read (S fuel) h None w = Ret (VBytes []) w' /\
    unread_of w' = unread_of w.
Proof.
  intros Hh Hc Hb Hlen.
  destruct (BufferedReader.peek BLOCK_SIZE (buf_reader (mr w))) as [win r1] eqn:P.
  pose proof (peek_spec _ _ _ _ P) as [Hwin Hun].
  assert (Hwl : length win < length (dash_boundary (mr w))).
  { unfold unread_of in Hlen. rewrite <- Hun in Hlen.
    unfold BufferedReader.unread in Hlen. rewrite length_app, <- Hwin in Hlen. lia. }
  assert (Hp : pull (bytes_read p =? 0)%Z (mr w) = ([], r1)).
  { unfold pull. rewrite P.
    destruct ((bytes_read p =? 0)%Z && peek_buffer_is_empty_part (mr w) win); [reflexivity|].
    rewrite (find_too_short _ _ Hwl). cbn [Z.eqb negb].
    destruct (Z.gtb_spec (Z.of_nat (length win) - Z.of_nat (length (dash_boundary (mr w)))) 0);
      [lia|].
    destruct (Z.eqb_spec (Z.of_nat (length win) - Z.of_nat (length (dash_boundary (mr w)))) 0);
      [lia | reflexivity]. }
  destruct (PartReader_read_scan h BLOCK_SIZE w p [] r1 Hh) as [(E & _ & _)|E];
    [rewrite Hb; simpl; unfold BLOCK_SIZE; lia | exact Hp | |].
  - eexists. split.
    + unfold Part_read. rewrite Hh, Hc. cbn [Part_read_all]. rewrite E. reflexivity.
    + exact Hun.
  - rewrite Hb in E. cbn [app] in E. rewrite slice_to_nil, slice_from_nil in E.
    eexists. split.
    + unfold Part_read. rewrite Hh, Hc. cbn [Part_read_all]. rewrite E. reflexivity.
    + exact Hun.
Qed.

(** X10 (blanks after the delimiter).  [skipLWSPChar] returns its argument
    unchanged, on every input; so a delimiter followed by anything before
    its newline, blanks and tabs included, is not taken for a delimiter
    line. *)
Theorem blanks_after_delimiter_not_skipped (boundary : bytes) (m : MultipartReader)
        (ws : bytes) :
  tokens_ok boundary m ->
  (forall l, skipLWSPChar l = l) /\
  (ws <> [] ->
   is_boundary_delimeter_line m ((b "--" ++ boundary) ++ ws ++ CRLF) = (false, m)).
Proof.
  intros T. split; [exact skipLWSPChar_id|]. intros Hws.
  rewrite (surjective_pairing (is_boundary_delimeter_line _ _)).
  rewrite is_boundary_delimeter_line_keeps_reader. f_equal.
  pose proof (is_boundary_delimeter_line_keeps_reader m
                ((b "--" ++ boundary) ++ ws ++ CRLF)) as Hk.
  revert Hk. unfold is_boundary_delimeter_line.
  rewrite (tok_dash_boundary _ _ T), startswith_app.
  rewrite slice_from_nat, drop_app_length, skipLWSPChar_id.
  cbn [fst snd]. intros ->. rewrite (tok_nl _ _ T).
  destruct (bytes_eqb (ws ++ CRLF) CRLF) eqn:E; [|reflexivity].
  apply bytes_eqb_eq in E. apply (f_equal length) in E. rewrite length_app in E.
  destruct ws; [contradiction | simpl in E; lia].
Qed.

Lemma window_of_token_length_is_taken_witness :
  exists v w' p',
    _PartReader_read 0 4096 straddle_1 = Ret v w' /\ heap w' !! 0 = Some p' /\
    unread_of w'
    = b "XYZ" ++ CRLF ++ b "h: w" ++ CRLF ++ CRLF ++ b "second" ++ CRLF
        ++ b "--XYZ--" ++ CRLF.
Proof.
  destruct (window_of_token_length_is_taken XYZ 0 4096 straddle_1
              (mkPart (repeat x61 (Z.to_nat 4076)) 4096 [header_text (b "h: v")] false)
              (b "a" ++ CRLF) (b "--") (b "XYZ")
              (CRLF ++ b "h: w" ++ CRLF ++ CRLF ++ b "second" ++ CRLF ++ b "--XYZ--" ++ CRLF))
    as (_ & v & w' & p' & E & Hh & _ & Hu).
  - split; vm_compute; reflexivity.
  - vm_compute; reflexivity.
  - vm_compute; reflexivity.
  - vm_compute; reflexivity.
  - vm_compute; reflexivity.
  - vm_compute; reflexivity.
  - vm_compute; reflexivity.
  - vm_compute; discriminate.
  - exists v, w', p'. split; [exact E|]. split; [exact Hh | exact Hu].
Defined.

Lemma short_tail_is_never_delivered_witness :
  exists w',
    Part_read 1 0 None truncated_a = Ret (VBytes []) w' /\
    unread_of w' = b "abc".
Proof.
  destruct (short_tail_is_never_delivered 0 0 truncated_a
              (mkPart [] 0 [header_text (b "h: v")] false))
    as (w' & E & Hu).
  - vm_compute; reflexivity.
  - reflexivity.
  - reflexivity.
  - vm_compute; lia.
  - exists w'. split; [exact E|]. rewrite Hu. vm_compute; reflexivity.
Defined.

Lemma blanks_after_delimiter_not_skipped_witness :
  is_boundary_delimeter_line (MultipartReader_init [] XYZ)
                             ((b "--" ++ XYZ) ++ b " " ++ CRLF)
  = (false, MultipartReader_init [] XYZ).
Proof.
  refine (proj2 (blanks_after_delimiter_not_skipped XYZ (MultipartReader_init [] XYZ)
                   (b " ") _) _).
  - split; vm_compute; reflexivity.
  - vm_compute; discriminate.
Defined.

(** * The end of the stream *)

Lemma unread_nil (r : BufferedReader) :
  BufferedReader.unread r = [] -> r = {| buffered := []; raw := [] |}.
Proof.
  destruct r as [bu ra]. unfold BufferedReader.unread. cbn.
  intros [-> ->]%app_eq_nil. reflexivity.
Qed.

(** X11 ([next_part] at the end of the stream).  Once a part has been
    handed out, a call of [next_part] that finds the stream at its end after
    closing the current part raises [Exception] for the empty line it
    read. *)
Theorem next_part_at_end_of_stream (boundary : bytes) (fuel : nat) (w w1 : World) :
  close_current_part (S fuel) w = Ret tt w1 ->
  tokens_ok boundary (mr w1) ->
  unread_of w1 = [] ->
  parts_read (mr w1) <> 0%Z ->
  next_part (S fuel) w
  = Raise (Exception "Unexpected line in next_part():" []) w1.
Proof.
  intros Hcl T Hu Hp. unfold next_part. rewrite Hcl. cbn [bind next_part_loop].
  apply unread_nil in Hu. rewrite Hu, readline_at_eof, peek_at_eof.
  assert (Hw : set_reader {| buffered := []; raw := [] |} w1 = w1).
  { destruct w1 as [[] ?]. simpl in Hu. subst. reflexivity. }
  rewrite Hw. unfold is_final_boundary, is_boundary_delimeter_line.
  rewrite (tok_dash_boundary_dash _ _ T), (tok_dash_boundary _ _ T).
  rewrite startswith_nil_token.
  rewrite <- (app_nil_r (b "--" ++ boundary)), startswith_nil_token.
  cbn [negb andb length Nat.eqb mr].
  rewrite (tok_dash_boundary_dash _ _ T), startswith_nil_token.
  cbn [negb]. rewrite (proj2 (Z.eqb_neq _ _) Hp), (tok_nl _ _ T).
  cbn [bytes_eqb]. destruct w1; reflexivity.
Qed.

Lemma next_part_at_end_of_stream_witness :
  exists w1,
    next_part 8 cut_short_a
    = Raise (Exception "Unexpected line in next_part():" []) w1.
Proof.
  eexists.
  refine (next_part_at_end_of_stream XYZ 7 cut_short_a _ _ _ _ _).
  - vm_compute; reflexivity.
  - split; vm_compute; reflexivity.
  - vm_compute; reflexivity.
  - vm_compute; discriminate.
Defined.

(** X12 (one window per read).  One body read returns at most the residual
    buffer and one peeked window, whatever the size asked, and takes at
    most that window off the byte source. *)
Theorem read_takes_at_most_one_window (h : nat) (d : Z) (w : World) (p : Part)
        (win : bytes) (r1 : BufferedReader) :
  heap w !! h = Some p ->
  BufferedReader.peek BLOCK_SIZE (buf_reader (mr w)) = (win, r1) ->
  exists v w',
    _PartReader_read h d w = Ret v w' /\
    length (py_bytes v) <= length (buf p) + length win /\
    length (unread_of w) - length win <= length (unread_of w').
Proof.
  intros Hh P.
  destruct (Z.le_gt_cases d (Z.of_nat (length (buf p)))) as [Hfast|Hslow].
  - rewrite (PartReader_read_buffer h d w p Hh Hfast).
    do 2 eexists. split; [reflexivity|]. cbn [py_bytes].
    split; [|unfold unread_of; cbn; lia].
    pose proof (slice_to_from d (buf p)) as E. apply (f_equal length) in E.
    rewrite length_app in E. lia.
  - destruct (pull (bytes_read p =? 0)%Z (mr w)) as [k r] eqn:Pk.
    pose proof (pull_length _ _ _ _ Pk) as Hl.
    assert (Hk : length k <= length win).
    { revert Pk. unfold pull. rewrite P.
      pose proof (peek_spec _ _ _ _ P) as [Hwin _].
      assert (Hread : forall n, n <= length win ->
                BufferedReader.read n r1 = (k, r) -> length k <= length win).
      { intros n Hn Hr. destruct (read_buffered n r1) as (r' & E & _);
          [rewrite <- Hwin; lia|].
        rewrite E in Hr. injection Hr as <- _. rewrite length_take. lia. }
      destruct ((bytes_read p =? 0)%Z && peek_buffer_is_empty_part (mr w) win);
        [intros [= <- _]; simpl; lia|].
      destruct (find_cases win (dash_boundary (mr w))) as [E|[idx E]]; rewrite E.
      - cbn [Z.eqb negb].
        destruct (Z.gtb_spec (Z.of_nat (length win) - Z.of_nat (length (dash_boundary (mr w)))) 0).
        + apply Hread. lia.
        + destruct (Z.eqb_spec (Z.of_nat (length win) - Z.of_nat (length (dash_boundary (mr w)))) 0);
            [apply Hread; lia | intros [= <- _]; simpl; lia].
      - apply find_found in E as (_ & Hle & _).
        destruct (Z.eqb_spec (Z.of_nat idx) (-1)); [lia|]. cbn [negb].
        destruct (Z.gtb_spec (Z.of_nat idx) 0); [apply Hread; lia|].
        intros [= <- _]; simpl; lia. }
    destruct (PartReader_read_pull h d w p k r Hh ltac:(lia) Pk) as (v & p' & E & Hc).
    do 2 eexists. split; [exact E|].
    apply (f_equal length) in Hc. rewrite !length_app in Hc.
    split; [lia|]. unfold unread_of. cbn. lia.
Qed.

Lemma read_takes_at_most_one_window_witness :
  exists v w',
    _PartReader_read 0 100000 (world_of (next_part 8 (World_init straddle XYZ))
                                        (World_init straddle XYZ))
    = Ret v w' /\
    length (py_bytes v) <= 0 + Z.to_nat 8177.
Proof.
  destruct (read_takes_at_most_one_window 0 100000
              (world_of (next_part 8 (World_init straddle XYZ)) (World_init straddle XYZ))
              (mkPart [] 0 [header_text (b "h: v")] false)
              (repeat x61 (Z.to_nat 8173) ++ CRLF ++ b "--")
              {| buffered := repeat x61 (Z.to_nat 8173) ++ CRLF ++ b "--";
                 raw := b "XYZ" ++ CRLF ++ b "h: w" ++ CRLF ++ CRLF
                          ++ b "second" ++ CRLF ++ b "--XYZ--" ++ CRLF |})
    as (v & w' & E & Hl & _).
  - vm_compute; reflexivity.
  - vm_compute; reflexivity.
  - exists v, w'. split; [exact E|].
    replace (Z.to_nat 8177)
      with (length (repeat x61 (Z.to_nat 8173) ++ CRLF ++ b "--"))
      by (vm_compute; reflexivity).
    exact Hl.
Defined.

(** * The fixed-size read loop of the consumer *)

Lemma take_split (n : nat) (X R : bytes) :
  take n (X ++ R) = take n X ++ take (n - length (take n X)) (drop n X ++ R).
Proof.
  destruct (Nat.le_gt_cases n (length X)) as [H|H].
  - rewrite take_app_le by lia.
    replace (n - length (take n X)) with 0 by (rewrite length_take; lia).
    rewrite take_0, app_nil_r. reflexivity.
  - rewrite take_app_ge by lia. rewrite (take_ge X) by lia. rewrite (drop_ge X) by lia.
    reflexivity.
Qed.

Lemma read_exactly_body (n : nat) :
  forall (fuel h : nat) (total : Z) (w : World) (p : Part) (data0 body : bytes)
         (rf : BufferedReader),
    heap w !! h = Some p -> closed p = false -> part_inv p ->
    length (buf p) + length (unread_of w) <= n -> n + 1 < fuel ->
    Drain (bytes_read p =? 0)%Z (mr w) body rf ->
    exists w',
      read_exactly fuel h total data0 w
      = Ret (data0 ++ take (Z.to_nat (total - Z.of_nat (length data0)))
                           (buf p ++ body)) w'.
Proof.
  induction n as [n IH] using lt_wf_ind.
  intros fuel h total w p data0 body rf Hh Hc [Hge Hinv] Hn Hf HB.
  unfold unread_of in *.
  destruct fuel as [|fuel]; [lia|].
  cbn [read_exactly].
  destruct (Z.ltb_spec (Z.of_nat (length data0)) total) as [Hlt|Hdone].
  2: { replace (Z.to_nat (total - Z.of_nat (length data0))) with 0 by lia.
       rewrite take_0, app_nil_r. eauto. }
  set (dn := Z.to_nat (total - Z.of_nat (length data0))).
  assert (Hdn : (total - Z.of_nat (length data0))%Z = Z.of_nat dn) by (unfold dn; lia).
  assert (Hpos : 0 < dn) by lia.
  rewrite Hdn. unfold Part_read. rewrite Hh, Hc.
  assert (Hnext : forall out : bytes,
             Z.to_nat (total - Z.of_nat (length (data0 ++ out))) = dn - length out)
    by (intros out; rewrite length_app; lia).
  destruct (Nat.le_gt_cases dn (length (buf p))) as [Hfast|Hslow].
  - rewrite (PartReader_read_buffer h _ w p Hh) by lia.
    rewrite slice_to_nat, slice_from_nat. cbn [bind py_truthy py_bytes].
    assert (Hl : length (take dn (buf p)) = dn) by (rewrite length_take; lia).
    rewrite Hl. destruct dn as [|dn']; [lia|]. cbn [Nat.eqb negb].
    set (p1 := set_buf (drop (S dn') (buf p)) p).
    destruct (IH (n - 1)) with (fuel := fuel) (h := h) (total := total)
      (w := set_part h p1 w) (p := p1) (data0 := data0 ++ take (S dn') (buf p))
      (body := body) (rf := rf) as [w' Hw']; try lia.
    + eapply lookup_set_part; exact Hh.
    + exact Hc.
    + split; [exact Hge|]. intros Hz. simpl. rewrite (Hinv Hz). apply drop_nil.
    + unfold unread_of, p1 in *. simpl. rewrite length_drop. lia.
    + exact HB.
    + exists w'. rewrite Hw', Hnext, Hl, Nat.sub_diag, take_0, app_nil_r.
      rewrite take_app_le by lia. reflexivity.
  - destruct (pull (bytes_read p =? 0)%Z (mr w)) as [k r] eqn:P.
    destruct (PartReader_read_stream h (Z.of_nat dn) w p k r Hh ltac:(lia) Hinv P)
      as (v & -> & Hv & Ht).
    pose proof (pull_length _ _ _ _ P) as Hl.
    cbn [bind]. rewrite Ht, Hv, slice_to_nat, slice_from_nat.
    set (out := take dn (buf p ++ k)).
    set (p1 := finally_count (VBytes out) (set_buf (drop dn (buf p ++ k)) p)).
    assert (Hout : length out = Nat.min dn (length (buf p) + length k))
      by (unfold out; rewrite length_take, length_app; reflexivity).
    destruct (length out) as [|lo] eqn:Elo.
    + assert (buf p = [] /\ k = []) as [Eb Ek].
      { destruct (buf p), k; simpl in *; try lia; auto. }
      cbn [Nat.eqb negb]. subst k.
      inversion HB as [? ? r' P'|? ? k' r' ? ? P' Hne]; subst.
      * rewrite Eb. cbn [app]. rewrite take_nil, app_nil_r. eauto.
      * rewrite P in P'. congruence.
    + cbn [Nat.eqb negb].
      assert (Hh1 : heap (set_part h p1 (set_reader r w)) !! h = Some p1)
        by (apply (lookup_set_part h p1 p (set_reader r w)); exact Hh).
      assert (Hnz : (bytes_read p1 =? 0)%Z = false).
      { apply Z.eqb_neq. unfold p1. simpl. rewrite Elo. lia. }
      assert (Hinv1 : part_inv p1).
      { split; [unfold p1; simpl; lia|]. intros Hz. apply Z.eqb_neq in Hnz. contradiction. }
      assert (HB1 : exists rest, Drain false (set_buf_reader r (mr w)) rest rf /\ body = k ++ rest).
      { inversion HB as [? ? r' P'|? ? k' r' rest ? P' Hne Hrest]; subst.
        - rewrite P in P'. injection P' as -> <-.
          exists []. split; [|reflexivity].
          destruct (bytes_read p =? 0)%Z eqn:Ez.
          + apply Z.eqb_eq in Ez. rewrite (Hinv Ez) in *. simpl in *. lia.
          + eapply Drain_stop. apply pull_nothing_again. exact P.
        - rewrite P in P'. injection P' as <- <-. eauto. }
      destruct HB1 as (rest & Hrest & ->).
      destruct (IH (n - 1)) with (fuel := fuel) (h := h) (total := total)
        (w := set_part h p1 (set_reader r w)) (p := p1) (data0 := data0 ++ out)
        (body := rest) (rf := rf) as [w' Hw']; try lia; try assumption.
      * unfold unread_of, p1 in *.
        cbn [buf mr set_part set_reader finally_count set_buf buf_reader set_buf_reader].
        rewrite length_drop, length_app. lia.
      * rewrite Hnz. exact Hrest.
      * exists w'. rewrite Hw', Hnext. unfold p1. cbn [buf finally_count set_buf].
        rewrite <- !app_assoc. f_equal.
        rewrite (app_assoc (buf p) k rest). fold out.
        rewrite (take_split dn (buf p ++ k) rest). reflexivity.
Qed.

(** X13 (the fixed-size read loop of [parse_thermal_response]).  The loop
    that reads the temperature data, asking each time for what is missing
    of [p2p_len] bytes and stopping at an empty chunk, terminates and
    returns the first [p2p_len] bytes of what [read()] would return on the
    same part, or all of them when there are fewer. *)
Theorem read_exactly_returns_prefix (fuel h : nat) (p2p_len : Z) (w : World)
        (p : Part) :
  heap w !! h = Some p ->
  closed p = false -> part_inv p ->
  length (buf p) + length (unread_of w) + 1 < fuel ->
  exists body rf w' p'',
    Part_read fuel h None w
    = Ret (VBytes (buf p ++ body)) (set_part h p'' (set_reader rf w)) /\
    read_exactly fuel h p2p_len [] w
    = Ret (take (Z.to_nat p2p_len) (buf p ++ body)) w'.
Proof.
  intros Hh Hc Hinv Hf.
  destruct (Drain_exists (length (unread_of w)) (bytes_read p =? 0)%Z (mr w))
    as (body & rf & HD); [reflexivity|].
  destruct (read_in_chunks_drain _ fuel h (Z.to_nat BLOCK_SIZE) w p [] body rf
              ltac:(unfold BLOCK_SIZE; lia) Hh Hc Hinv (Nat.le_refl _) ltac:(lia) HD)
    as (p' & H1 & _).
  replace (Z.of_nat (Z.to_nat BLOCK_SIZE)) with BLOCK_SIZE in H1
    by (unfold BLOCK_SIZE; lia).
  destruct (read_exactly_body _ fuel h p2p_len w p [] body rf
              Hh Hc Hinv (Nat.le_refl _) Hf HD) as [w' H2].
  exists body, rf, w', p'. split.
  - unfold Part_read. rewrite Hh, Hc.
    rewrite (Part_read_all_chunks fuel h [] w p Hh Hc), H1. reflexivity.
  - rewrite H2. cbn [app length]. rewrite Z.sub_0_r. reflexivity.
Qed.

Lemma read_exactly_returns_prefix_witness :
  exists body w1 w2,
    Part_read 200 0 None scenario_a = Ret (VBytes body) w1 /\
    read_exactly 200 0 3 [] scenario_a = Ret (take 3 body) w2.
Proof.
  destruct (read_exactly_returns_prefix 200 0 3 scenario_a
              (mkPart [] 0 [header_text (b "Content-Disposition: form-data; name=a")] false))
    as (body & rf & w' & p'' & E1 & E2).
  - vm_compute; reflexivity.
  - reflexivity.
  - split; [vm_compute; discriminate | intros _; reflexivity].
  - vm_compute; lia.
  - exists body, (set_part 0 p'' (set_reader rf scenario_a)), w'.
    split; [exact E1 | exact E2].
Defined.

(** * What the operations leave alone *)

Lemma same_but_source_refl (m : MultipartReader) : same_but_source m m.
Proof. destruct m; reflexivity. Qed.

Lemma same_but_source_set (r : BufferedReader) (m : MultipartReader) :
  same_but_source m (set_buf_reader r m).
Proof. reflexivity. Qed.

Lemma same_but_source_trans (m1 m2 m3 : MultipartReader) :
  same_but_source m1 m2 -> same_but_source m2 m3 -> same_but_source m1 m3.
Proof.
  unfold same_but_source. intros H12 H23. rewrite H23 at 1. rewrite H12 at 1.
  reflexivity.
Qed.

(** One body read changes the part read from, which stays as open or closed
    as it was, and the byte source; nothing else. *)
Lemma PartReader_read_frame (h : nat) (d : Z) (w : World) (p : Part) :
  heap w !! h = Some p ->
  exists v w' p',
    _PartReader_read h d w = Ret v w' /\
    heap w' = <[h := p']> (heap w) /\ closed p' = closed p /\
    same_but_source (mr w) (mr w') /\
    (v = VStr EmptyString \/ exists l, v = VBytes l).
Proof.
  intros Hh.
  destruct (PartReader_read_cases h d w p Hh) as (v & bufnew & n & r & E & _ & _ & Hv & _).
  do 3 eexists. split; [exact E|]. split; [reflexivity|]. split; [reflexivity|].
  split; [reflexivity | exact Hv].
Qed.

Lemma Part_close_loop_frame (fuel h : nat) (w w' : World) (p : Part) :
  heap w !! h = Some p ->
  Part_close_loop fuel h w = Ret tt w' ->
  exists p', heap w' = <[h := p']> (heap w) /\ closed p' = false /\
             closed p = false /\ same_but_source (mr w) (mr w').
Proof.
  revert w p; induction fuel as [|fuel IH]; intros w p Hh; [discriminate|].
  cbn [Part_close_loop]. unfold Part_read. rewrite Hh.
  destruct (closed p) eqn:Hc; [discriminate|].
  destruct (PartReader_read_frame h BLOCK_SIZE w p Hh)
    as (v & w1 & p1 & -> & Hheap & Hc1 & Hm & Hv).
  cbn [bind].
  assert (Hh1 : heap w1 !! h = Some p1).
  { rewrite Hheap. apply list_lookup_insert_eq. apply lookup_lt_Some in Hh. exact Hh. }
  destruct (negb (py_truthy v) || (py_len v =? 0)).
  - intros [= <-]. exists p1. rewrite Hc1. auto.
  - intros Hrec. destruct (IH w1 p1 Hh1 Hrec) as (p' & Hheap' & Hc' & _ & Hm').
    exists p'. rewrite Hheap', Hheap, list_insert_insert_eq.
    split; [reflexivity|]. split; [exact Hc'|]. split; [reflexivity|].
    exact (same_but_source_trans _ _ _ Hm Hm').
Qed.

Lemma Part_close_frame (fuel h : nat) (w w' : World) (p : Part) :
  heap w !! h = Some p ->
  Part_close fuel h w = Ret tt w' ->
  exists p', heap w' = <[h := p']> (heap w) /\ closed p' = true /\
             same_but_source (mr w) (mr w').
Proof.
  intros Hh. unfold Part_close.
  destruct (Part_close_loop fuel h w) as [[] w1| | |] eqn:E; try discriminate.
  destruct (Part_close_loop_frame fuel h w w1 p Hh E) as (p1 & Hheap & _ & _ & Hm).
  cbn [bind].
  assert (Hh1 : heap w1 !! h = Some p1).
  { rewrite Hheap. apply list_lookup_insert_eq. apply lookup_lt_Some in Hh. exact Hh. }
  rewrite Hh1. intros [= <-]. exists (set_closed true p1).
  unfold set_part. cbn [heap mr]. rewrite Hheap, list_insert_insert_eq. auto.
Qed.

Lemma populate_headers_frame (fuel h : nat) (w w' : World) (p : Part) :
  heap w !! h = Some p ->
  populate_headers fuel h w = Ret tt w' ->
  exists hl, heap w' = <[h := {| buf := buf p; bytes_read := bytes_read p;
                                 header_lines := hl; closed := closed p |}]> (heap w) /\
             same_but_source (mr w) (mr w').
Proof.
  revert w p; induction fuel as [|fuel IH]; intros w p Hh; [discriminate|].
  cbn [populate_headers].
  destruct (BufferedReader.readline (buf_reader (mr w))) as [line r1].
  destruct (py_in (VBytes line) [VBytes CRLF; VBytes [LF]; VBytes []]).
  - intros [= <-]. exists (header_lines p). cbn [heap set_reader mr].
    split; [|reflexivity]. rewrite list_insert_id; [reflexivity|].
    rewrite Hh. destruct p; reflexivity.
  - cbn [heap set_reader]. rewrite Hh. intros Hrec.
    destruct (IH _ (add_header_line (decode_utf8_ignore line) p)
                 (lookup_set_part h _ p (set_reader r1 w) Hh) Hrec)
      as (hl & Hheap & Hm).
    exists hl. cbn [heap set_part set_reader mr] in Hheap, Hm.
    rewrite Hheap, list_insert_insert_eq. split; [reflexivity|].
    exact (same_but_source_trans _ _ _ (same_but_source_set r1 (mr w)) Hm).
Qed.

(** What the loop of [next_part] leaves when it returns. *)
Lemma next_part_loop_frame (fuel : nat) (e : bool) (w w' : World) (o : option nat) :
  next_part_loop fuel e w = Ret o w' ->
  (o = None /\ heap w' = heap w /\ same_but_source (mr w) (mr w')) \/
  (exists hl,
      o = Some (length (heap w)) /\
      heap w' = heap w ++ [ {| buf := []; bytes_read := 0;
                               header_lines := hl; closed := false |} ] /\
      mr w' = set_current_part (Some (length (heap w)))
                (set_buf_reader (buf_reader (mr w'))
                   (set_parts_read (parts_read (mr w) + 1)%Z (mr w)))).
Proof.
  revert e w; induction fuel as [|fuel IH]; intros e w; [discriminate|].
  cbn [next_part_loop].
  destruct (BufferedReader.readline (buf_reader (mr w))) as [line r1].
  destruct (BufferedReader.peek 1 r1) as [is_EOF r2].
  destruct ((length is_EOF =? 0) && is_final_boundary (mr (set_reader r2 w)) line).
  { intros [= <- <-]. left. split; [reflexivity|]. split; reflexivity. }
  rewrite (surjective_pairing (is_boundary_delimeter_line _ _)).
  rewrite is_boundary_delimeter_line_keeps_reader.
  destruct (fst (is_boundary_delimeter_line (mr (set_reader r2 w)) line)).
  - unfold _new_part. cbn [heap mr set_reader].
    destruct (populate_headers fuel (length (heap w)) _) as [[] w5| | |] eqn:E;
      try discriminate.
    apply (populate_headers_frame _ _ _ _ Part_init) in E as (hl & Hheap & Hm);
      [|cbn [heap]; apply list_lookup_middle; reflexivity].
    cbn [bind]. intros [= <- <-]. right. exists hl. split; [reflexivity|].
    cbn [heap mr] in *. split.
    + rewrite Hheap. rewrite (insert_app_r_alt (heap w) [Part_init] (length (heap w)))
        by reflexivity.
      rewrite Nat.sub_diag. reflexivity.
    + unfold same_but_source in Hm. rewrite Hm at 1. reflexivity.
  - replace {| mr := mr (set_reader r2 w); heap := heap (set_reader r2 w) |}
      with (set_reader r2 w) by reflexivity.
    destruct (is_final_boundary (mr (set_reader r2 w)) line).
    { intros [= <- <-]. left. split; [reflexivity|]. split; reflexivity. }
    destruct e; [discriminate|].
    assert (Hrec : forall e', next_part_loop fuel e' (set_reader r2 w) = Ret o w' ->
              (o = None /\ heap w' = heap w /\ same_but_source (mr w) (mr w')) \/
              (exists hl,
                  o = Some (length (heap w)) /\
                  heap w' = heap w ++ [ {| buf := []; bytes_read := 0;
                                           header_lines := hl; closed := false |} ] /\
                  mr w' = set_current_part (Some (length (heap w)))
                            (set_buf_reader (buf_reader (mr w'))
                               (set_parts_read (parts_read (mr w) + 1)%Z (mr w))))).
    { intros e' H. destruct (IH e' _ H) as [(-> & Hh & Hm)|(hl & -> & Hh & Hm)].
      - left. split; [reflexivity|]. split; [exact Hh|].
        exact (same_but_source_trans _ _ _ (same_but_source_set r2 (mr w)) Hm).
      - right. exists hl. split; [reflexivity|]. split; [exact Hh|].
        rewrite Hm at 1. reflexivity. }
    destruct (parts_read (mr (set_reader r2 w)) =? 0)%Z; [apply Hrec|].
    destruct (bytes_eqb line (nl (mr (set_reader r2 w)))); [apply Hrec | discriminate].
Qed.

Lemma tokens_ok_same_but_source (boundary : bytes) (m m' : MultipartReader) :
  same_but_source m m' -> tokens_ok boundary m -> tokens_ok boundary m'.
Proof. intros -> T. apply tokens_ok_set_buf_reader. exact T. Qed.

(** X14 (what [next_part] leaves).  When at most one part is open and it is
    the current one, a call of [next_part] that returns keeps it so and
    keeps the five tokens of the reader.  If it returns a part, that part is
    a new object, open, with an empty residual buffer and a counter of
    zero; it is the current part, and [parts_read] has grown by one.  If it
    returns [None], no part is open any more, and [parts_read] and the
    current part are what they were. *)
Theorem next_part_keeps_one_open_part (boundary : bytes) (fuel : nat) (w w' : World)
        (o : option nat) :
  one_open_part w ->
  tokens_ok boundary (mr w) ->
  next_part fuel w = Ret o w' ->
  one_open_part w' /\ tokens_ok boundary (mr w') /\
  match o with
  | Some h =>
      h = length (heap w) /\ length (heap w') = S (length (heap w)) /\
      current_part (mr w') = Some h /\
      parts_read (mr w') = (parts_read (mr w) + 1)%Z /\
      exists hl, heap w' !! h = Some {| buf := []; bytes_read := 0;
                                        header_lines := hl; closed := false |}
  | None =>
      length (heap w') = length (heap w) /\
      current_part (mr w') = current_part (mr w) /\
      parts_read (mr w') = parts_read (mr w) /\
      forall i p, heap w' !! i = Some p -> closed p = true
  end.
Proof.
  intros Hone T. unfold next_part.
  destruct (close_current_part fuel w) as [[] w1| | |] eqn:Ecl; try discriminate.
  cbn [bind]. intros Hloop.
  assert (H1 : (forall i p, heap w1 !! i = Some p -> closed p = true) /\
               length (heap w1) = length (heap w) /\
               same_but_source (mr w) (mr w1)).
  { unfold close_current_part in Ecl.
    destruct (current_part (mr w)) as [h|] eqn:Ec.
    - destruct (heap w !! h) as [p|] eqn:Hh.
      + destruct (Part_close_frame fuel h w w1 p Hh Ecl) as (p' & Hheap & Hc & Hm).
        split; [|split; [rewrite Hheap; apply length_insert | exact Hm]].
        intros i q Hq. rewrite Hheap in Hq.
        destruct (Nat.eq_dec h i) as [->|Hne].
        * rewrite list_lookup_insert_eq in Hq by (apply lookup_lt_Some in Hh; exact Hh).
          injection Hq as <-. exact Hc.
        * rewrite list_lookup_insert_ne in Hq by exact Hne.
          destruct (closed q) eqn:Hcq; [reflexivity|].
          specialize (Hone i q Hq Hcq). congruence.
      + unfold Part_close in Ecl. destruct fuel; [discriminate|].
        cbn [Part_close_loop] in Ecl. unfold Part_read in Ecl. rewrite Hh in Ecl.
        discriminate.
    - injection Ecl as <-. split; [|split; [reflexivity | apply same_but_source_refl]].
      intros i q Hq. destruct (closed q) eqn:Hcq; [reflexivity|].
      specialize (Hone i q Hq Hcq). congruence. }
  destruct H1 as (Hall & Hlen & Hm1).
  destruct (next_part_loop_frame fuel false w1 w' o Hloop)
    as [(-> & Hheap & Hm)|(hl & -> & Hheap & Hm)].
  - pose proof (same_but_source_trans _ _ _ Hm1 Hm) as Hmm.
    split; [|split; [exact (tokens_ok_same_but_source _ _ _ Hmm T)|]].
    + intros i q Hq Hcq. rewrite Hheap in Hq. rewrite (Hall i q Hq) in Hcq. discriminate.
    + rewrite Hheap. split; [exact Hlen|]. unfold same_but_source in Hmm.
      rewrite Hmm. split; [reflexivity|]. split; [reflexivity|].
      intros i q Hq. apply (Hall i q). exact Hq.
  - assert (T1 : tokens_ok boundary (mr w1))
      by exact (tokens_ok_same_but_source _ _ _ Hm1 T).
    split; [|split].
    + intros i q Hq Hcq. rewrite Hheap in Hq. rewrite Hm. cbn [current_part set_current_part].
      destruct (Nat.lt_ge_cases i (length (heap w1))) as [Hlt|Hge].
      * rewrite lookup_app_l in Hq by exact Hlt.
        rewrite (Hall i q Hq) in Hcq. discriminate.
      * apply lookup_lt_Some in Hq. rewrite length_app in Hq. simpl in Hq.
        f_equal. lia.
    + rewrite Hm. destruct T1; split; assumption.
    + rewrite Hlen. split; [reflexivity|].
      split; [rewrite Hheap, length_app; simpl; lia|].
      split; [rewrite Hm, Hlen; reflexivity|].
      split; [rewrite Hm; unfold same_but_source in Hm1; rewrite Hm1; reflexivity|].
      exists hl. rewrite Hheap, <- Hlen. apply list_lookup_middle. reflexivity.
Qed.

Lemma next_part_keeps_one_open_part_witness :
  exists w',
    next_part 8 scenario_a = Ret (Some 1) w' /\ one_open_part w' /\
    current_part (mr w') = Some 1.
Proof.
  exists (world_of (next_part 8 scenario_a) scenario_a).
  assert (E : next_part 8 scenario_a
              = Ret (Some 1) (world_of (next_part 8 scenario_a) scenario_a))
    by (vm_compute; reflexivity).
  split; [exact E|].
  assert (H0 : one_open_part scenario_a)
    by (intros [|i] p H Hc; [vm_compute; reflexivity | vm_compute in H; discriminate]).
  assert (T0 : tokens_ok XYZ (mr scenario_a)) by (split; vm_compute; reflexivity).
  destruct (next_part_keeps_one_open_part XYZ 8 scenario_a _ _ H0 T0 E)
    as (Hone & _ & _ & _ & Hc & _).
  split; [exact Hone | exact Hc].
Defined.

(** X15 (what [Part.read] leaves).  A read on a part that returns changes no
    other part and nothing of the reader but its byte source; when at most
    one part was open, and it was the current one, this is still so. *)
Theorem reading_keeps_one_open_part (fuel h : nat) (d : option Z) (w w' : World)
        (v : pyval) :
  one_open_part w ->
  Part_read fuel h d w = Ret v w' ->
  one_open_part w' /\ length (heap w') = length (heap w) /\
  same_but_source (mr w) (mr w') /\
  forall i, i <> h -> heap w' !! i = heap w !! i.
Proof.
  intros Hone. unfold Part_read.
  destruct (heap w !! h) as [p|] eqn:Hh; [|discriminate].
  destruct (closed p) eqn:Hc; [discriminate|].
  assert (Hstep : forall w0 p0 d0 v0 w1,
             heap w0 !! h = Some p0 -> _PartReader_read h d0 w0 = Ret v0 w1 ->
             exists p1, heap w1 = <[h := p1]> (heap w0) /\ closed p1 = closed p0 /\
                        same_but_source (mr w0) (mr w1)).
  { intros w0 p0 d0 v0 w1 H0 E.
    destruct (PartReader_read_frame h d0 w0 p0 H0) as (v1 & w2 & p1 & E' & Hh' & Hc' & Hm & _).
    rewrite E in E'. injection E' as <- <-. eauto. }
  assert (Hfin : forall p1, heap w' = <[h := p1]> (heap w) -> closed p1 = false ->
             same_but_source (mr w) (mr w') ->
             one_open_part w' /\ length (heap w') = length (heap w) /\
             same_but_source (mr w) (mr w') /\
             forall i, i <> h -> heap w' !! i = heap w !! i).
  { intros p1 Hheap Hc1 Hm.
    split; [|split; [rewrite Hheap; apply length_insert|split; [exact Hm|]]].
    - intros i q Hq Hcq. unfold same_but_source in Hm. rewrite Hm.
      cbn [current_part set_buf_reader]. rewrite Hheap in Hq.
      destruct (Nat.eq_dec h i) as [->|Hne].
      + apply (Hone i p Hh Hc).
      + rewrite list_lookup_insert_ne in Hq by exact Hne. apply (Hone i q Hq Hcq).
    - intros i Hi. rewrite Hheap. apply list_lookup_insert_ne. congruence. }
  destruct d as [d|].
  - intros E. destruct (Hstep w p d v w' Hh E) as (p1 & Hheap & Hc1 & Hm).
    apply (Hfin p1 Hheap); [congruence | exact Hm].
  - assert (Hall : forall fuel0 data w0 p0,
               heap w0 !! h = Some p0 -> Part_read_all fuel0 h data w0 = Ret v w' ->
               exists p1, heap w' = <[h := p1]> (heap w0) /\ closed p1 = closed p0 /\
                          same_but_source (mr w0) (mr w')).
    { induction fuel0 as [|fuel0 IH]; intros data w0 p0 H0; [discriminate|].
      cbn [Part_read_all].
      destruct (_PartReader_read h BLOCK_SIZE w0) as [v0 w1| | |] eqn:E0; try discriminate.
      destruct (Hstep w0 p0 _ v0 w1 H0 E0) as (p1 & Hheap & Hc1 & Hm).
      cbn [bind].
      destruct (negb (py_truthy v0) || (py_len v0 =? 0)).
      - intros [= _ <-]. eauto.
      - intros Hrec.
        assert (H1 : heap w1 !! h = Some p1).
        { rewrite Hheap. apply list_lookup_insert_eq. apply lookup_lt_Some in H0. exact H0. }
        destruct (IH _ w1 p1 H1 Hrec) as (p2 & Hheap2 & Hc2 & Hm2).
        exists p2. rewrite Hheap2, Hheap, list_insert_insert_eq.
        split; [reflexivity|]. split; [congruence|].
        exact (same_but_source_trans _ _ _ Hm Hm2). }
    intros E. destruct (Hall fuel [] w p Hh E) as (p1 & Hheap & Hc1 & Hm).
    apply (Hfin p1 Hheap); [congruence | exact Hm].
Qed.

Lemma reading_keeps_one_open_part_witness :
  exists v w', Part_read 8 0 None scenario_a = Ret v w' /\ one_open_part w'.
Proof.
  exists (VBytes (b "hello" ++ CRLF)), (world_of (Part_read 8 0 None scenario_a) scenario_a).
  assert (E : Part_read 8 0 None scenario_a
              = Ret (VBytes (b "hello" ++ CRLF))
                    (world_of (Part_read 8 0 None scenario_a) scenario_a))
    by (vm_compute; reflexivity).
  split; [exact E|].
  assert (H0 : one_open_part scenario_a)
    by (intros [|i] p H Hc; [vm_compute; reflexivity | vm_compute in H; discriminate]).
  destruct (reading_keeps_one_open_part 8 0 None scenario_a _ _ H0 E) as (Hone & _).
  exact Hone.
Defined.

(** * The terminal indicator is not repeated *)

(** C2 (exactly-once terminal) fails in the code.  The reader keeps no
    record of having finished, so the call that follows the one that
    returned the terminal indicator is an ordinary call.  When the reader
    had a current part, that part is closed by then and the call raises
    [IOError] from closing it again, for every fuel.  When it had none
    and the stream is at its end, the call never returns. *)
Theorem next_part_terminal_not_repeated (boundary : bytes) (fuel : nat)
        (w w' : World) :
  tokens_ok boundary (mr w) ->
  next_part fuel w = Ret None w' ->
  (forall h, current_part (mr w) = Some h ->
     forall fuel', next_part (S fuel') w' = Raise PartAlreadyClosed w') /\
  (current_part (mr w) = None -> parts_read (mr w) = 0%Z -> unread_of w' = [] ->
     forall fuel', next_part fuel' w' = OutOfFuel).
Proof.
  intros T. unfold next_part at 1.
  destruct (close_current_part fuel w) as [[] w1| | |] eqn:Ecl; try discriminate.
  cbn [bind]. intros Hloop.
  destruct (next_part_loop_frame fuel false w1 w' None Hloop)
    as [(_ & Hheap & Hm)|(hl & Hno & _)]; [|discriminate].
  unfold close_current_part in Ecl. split.
  - intros h Hc fuel'. rewrite Hc in Ecl.
    destruct (heap w !! h) as [p|] eqn:Hh.
    + destruct (Part_close_frame fuel h w w1 p Hh Ecl) as (p' & Hheap1 & Hcl & Hm1).
      pose proof (same_but_source_trans _ _ _ Hm1 Hm) as Hmm.
      apply (next_part_closed_current fuel' h w' p').
      * unfold same_but_source in Hmm. rewrite Hmm. exact Hc.
      * rewrite Hheap, Hheap1. apply list_lookup_insert_eq.
        apply lookup_lt_Some in Hh. exact Hh.
      * exact Hcl.
    + unfold Part_close in Ecl. destruct fuel; [discriminate|].
      cbn [Part_close_loop] in Ecl. unfold Part_read in Ecl. rewrite Hh in Ecl.
      discriminate.
  - intros Hc Hp Hu fuel'. rewrite Hc in Ecl. injection Ecl as <-.
    pose proof (tokens_ok_same_but_source _ _ _ Hm T) as T'.
    unfold same_but_source in Hm.
    assert (Hc' : current_part (mr w') = None) by (rewrite Hm; exact Hc).
    assert (Hp' : parts_read (mr w') = 0%Z) by (rewrite Hm; exact Hp).
    unfold next_part, close_current_part. rewrite Hc'. cbn [bind].
    apply (next_part_loop_at_eof boundary);
      [exact T' | apply unread_nil; exact Hu | exact Hp'].
Qed.

Lemma next_part_terminal_not_repeated_witness :
  next_part 8 (world_of (Part_read 8 1 (Some 3%Z) scenario_b) scenario_b)
  = Ret None scenario_done /\
  (forall fuel', next_part (S fuel') scenario_done
                 = Raise PartAlreadyClosed scenario_done) /\
  next_part 8 (World_init final_only XYZ) = Ret None final_only_done /\
  (forall fuel', next_part fuel' final_only_done = OutOfFuel).
Proof.
  assert (E1 : next_part 8 (world_of (Part_read 8 1 (Some 3%Z) scenario_b) scenario_b)
               = Ret None scenario_done) by (vm_compute; reflexivity).
  assert (E2 : next_part 8 (World_init final_only XYZ) = Ret None final_only_done)
    by (vm_compute; reflexivity).
  assert (T1 : tokens_ok XYZ
                 (mr (world_of (Part_read 8 1 (Some 3%Z) scenario_b) scenario_b)))
    by (split; vm_compute; reflexivity).
  split; [exact E1|]. split.
  - destruct (next_part_terminal_not_repeated XYZ 8 _ scenario_done T1 E1) as [H _].
    apply (H 1). vm_compute; reflexivity.
  - split; [exact E2|].
    destruct (next_part_terminal_not_repeated XYZ 8 (World_init final_only XYZ)
                final_only_done (init_tokens final_only XYZ) E2) as [_ H].
    apply H; vm_compute; reflexivity.
Defined.

(** * [readline] in general *)

Lemma readline_more_spec (fuel : nat) :
  forall chunks rawbytes,
    length rawbytes < fuel ->
    BufferedReader.split_line chunks = None ->
    (fst (BufferedReader.readline_more fuel chunks rawbytes),
     BufferedReader.unread (snd (BufferedReader.readline_more fuel chunks rawbytes)))
    = first_line (chunks ++ rawbytes).
Proof.
  induction fuel as [|fuel IH]; intros chunks rawbytes Hf Hc; [lia|].
  cbn [BufferedReader.readline_more].
  pose proof (take_drop DEFAULT_BUFFER_SIZE rawbytes) as Htd.
  destruct (take DEFAULT_BUFFER_SIZE rawbytes) as [|x filled] eqn:Et.
  - apply take_buffer_nil in Et. subst rawbytes. cbn [fst snd].
    unfold BufferedReader.unread. cbn [buffered raw]. rewrite drop_nil.
    unfold first_line. rewrite (app_nil_r chunks), Hc. reflexivity.
  - destruct (BufferedReader.split_line (x :: filled)) as [[ln rest]|] eqn:Es.
    + cbn [fst snd]. unfold BufferedReader.unread. cbn [buffered raw].
      unfold first_line. rewrite <- Htd at 2.
      rewrite (split_line_app_None _ _ Hc), (split_line_app_Some _ _ _ _ Es).
      reflexivity.
    + rewrite IH.
      * rewrite <- app_assoc, Htd. reflexivity.
      * apply (f_equal length) in Htd. rewrite length_app in Htd. simpl in Htd. lia.
      * rewrite (split_line_app_None _ _ Hc), Es. reflexivity.
Qed.

(** [readline] returns the first line of the unread bytes and leaves the
    rest unread. *)
Lemma readline_spec (r : BufferedReader) :
  (fst (BufferedReader.readline r),
   BufferedReader.unread (snd (BufferedReader.readline r)))
  = first_line (BufferedReader.unread r).
Proof.
  unfold BufferedReader.readline.
  destruct (BufferedReader.split_line (buffered r)) as [[ln rest]|] eqn:E.
  - cbn [fst snd]. unfold first_line, BufferedReader.unread. cbn [buffered raw].
    rewrite (split_line_app_Some _ _ _ _ E). reflexivity.
  - apply readline_more_spec; [lia | exact E].
Qed.

Lemma readline_length (r r1 : BufferedReader) (line : bytes) :
  BufferedReader.readline r = (line, r1) ->
  length line + length (BufferedReader.unread r1) = length (BufferedReader.unread r) /\
  (line = [] -> BufferedReader.unread r = []).
Proof.
  intros E. pose proof (readline_spec r) as H. rewrite E in H. cbn [fst snd] in H.
  pose proof (first_line_concat (BufferedReader.unread r)) as Hc.
  pose proof (first_line_empty (BufferedReader.unread r)) as He.
  rewrite <- H in Hc, He. cbn [fst snd] in Hc, He.
  split; [rewrite <- Hc, length_app; reflexivity | exact He].
Qed.

(** * Termination *)

Lemma populate_headers_returns (n : nat) :
  forall (fuel h : nat) (w : World) (p : Part),
    heap w !! h = Some p ->
    length (unread_of w) <= n -> n < fuel ->
    exists w', populate_headers fuel h w = Ret tt w' /\
               length (unread_of w') <= length (unread_of w).
Proof.
  induction n as [n IH] using lt_wf_ind.
  intros fuel h w p Hh Hn Hf. destruct fuel as [|fuel]; [lia|].
  cbn [populate_headers].
  destruct (BufferedReader.readline (buf_reader (mr w))) as [line r1] eqn:E.
  apply readline_length in E as [Hl Hnil].
  destruct (py_in (VBytes line) [VBytes CRLF; VBytes [LF]; VBytes []]) eqn:Ein.
  - eexists. split; [reflexivity|]. unfold unread_of in *. cbn. lia.
  - cbn [heap set_reader]. rewrite Hh.
    assert (Hne : line <> []) by (intros ->; discriminate).
    assert (Hpos : 0 < length line) by (destruct line; [contradiction | simpl; lia]).
    unfold unread_of in Hn.
    destruct (IH (n - 1) ltac:(lia) fuel h
                 (set_part h (add_header_line (decode_utf8_ignore line) p) (set_reader r1 w))
                 (add_header_line (decode_utf8_ignore line) p)) as (w' & -> & Hle).
    + apply (lookup_set_part h _ p (set_reader r1 w)). exact Hh.
    + unfold unread_of in *. cbn. lia.
    + lia.
    + exists w'. split; [reflexivity|]. unfold unread_of in *. cbn in Hle. lia.
Qed.

Lemma Part_close_returns (fuel h : nat) (w : World) (p : Part) :
  heap w !! h = Some p -> closed p = false -> part_inv p ->
  length (buf p) + length (unread_of w) < fuel ->
  exists w1, Part_close fuel h w = Ret tt w1 /\
             same_but_source (mr w) (mr w1) /\
             length (unread_of w1) <= length (unread_of w).
Proof.
  intros Hh Hc Hinv Hf.
  destruct (Drain_exists (length (unread_of w)) (bytes_read p =? 0)%Z (mr w))
    as (body & rf & HD); [reflexivity|].
  destruct (read_in_chunks_drain _ fuel h (Z.to_nat BLOCK_SIZE) w p [] body rf
              ltac:(unfold BLOCK_SIZE; lia) Hh Hc Hinv (Nat.le_refl _) Hf HD)
    as (p' & H1 & _).
  replace (Z.of_nat (Z.to_nat BLOCK_SIZE)) with BLOCK_SIZE in H1
    by (unfold BLOCK_SIZE; lia).
  eexists. split; [|split].
  - unfold Part_close. rewrite (Part_close_loop_chunks fuel h [] w p Hh Hc), H1.
    cbn [void bind]. rewrite (lookup_set_part h p' p (set_reader rf w) Hh). reflexivity.
  - reflexivity.
  - apply Drain_unread in HD. apply (f_equal length) in HD. rewrite length_app in HD.
    unfold unread_of. cbn. lia.
Qed.

Lemma new_part_returns (fuel : nat) (w : World) :
  length (unread_of w) < fuel ->
  exists bp w', _new_part fuel w = Ret bp w'.
Proof.
  intros Hf. unfold _new_part.
  destruct (populate_headers_returns (length (unread_of w)) fuel (length (heap w))
              {| mr := mr w; heap := heap w ++ [Part_init] |} Part_init)
    as (w' & -> & _).
  - cbn [heap]. apply list_lookup_middle. reflexivity.
  - reflexivity.
  - exact Hf.
  - cbn [bind]. eauto.
Qed.

Lemma next_part_loop_expecting (fuel : nat) (w : World) :
  length (unread_of w) + 1 < fuel ->
  returns_or_raises (next_part_loop fuel true w).
Proof.
  intros Hf. destruct fuel as [|fuel]; [lia|]. cbn [next_part_loop].
  destruct (BufferedReader.readline (buf_reader (mr w))) as [line r1] eqn:E.
  apply readline_length in E as [Hl He].
  destruct (BufferedReader.peek 1 r1) as [is_EOF r2] eqn:P.
  apply peek_spec in P as [_ Hu].
  destruct ((length is_EOF =? 0) && is_final_boundary (mr (set_reader r2 w)) line);
    [left; eauto|].
  rewrite (surjective_pairing (is_boundary_delimeter_line _ _)).
  rewrite is_boundary_delimeter_line_keeps_reader.
  destruct (fst (is_boundary_delimeter_line (mr (set_reader r2 w)) line)).
  - match goal with |- returns_or_raises (bind (_new_part fuel ?w4) _) =>
      destruct (new_part_returns fuel w4) as (bp & w5 & ->) end.
    + unfold unread_of in *. cbn. rewrite Hu.
      destruct line; [rewrite He in Hl by reflexivity; cbn in Hl|cbn in Hl]; lia.
    + left. cbn [bind]. eauto.
  - destruct (is_final_boundary _ line); [left; eauto | right; eauto].
Qed.

Lemma next_part_loop_returns (fuel : nat) (e : bool) (w : World) :
  parts_read (mr w) <> 0%Z ->
  length (unread_of w) + 2 < fuel ->
  returns_or_raises (next_part_loop fuel e w).
Proof.
  intros Hp Hf. destruct fuel as [|fuel]; [lia|]. cbn [next_part_loop].
  destruct (BufferedReader.readline (buf_reader (mr w))) as [line r1] eqn:E.
  apply readline_length in E as [Hl He].
  destruct (BufferedReader.peek 1 r1) as [is_EOF r2] eqn:P.
  apply peek_spec in P as [_ Hu].
  destruct ((length is_EOF =? 0) && is_final_boundary (mr (set_reader r2 w)) line);
    [left; eauto|].
  rewrite (surjective_pairing (is_boundary_delimeter_line _ _)).
  rewrite is_boundary_delimeter_line_keeps_reader.
  destruct (fst (is_boundary_delimeter_line (mr (set_reader r2 w)) line)).
  - match goal with |- returns_or_raises (bind (_new_part fuel ?w4) _) =>
      destruct (new_part_returns fuel w4) as (bp & w5 & ->) end.
    + unfold unread_of in *. cbn. rewrite Hu.
      destruct line; [rewrite He in Hl by reflexivity; cbn in Hl|cbn in Hl]; lia.
    + left. cbn [bind]. eauto.
  - destruct (is_final_boundary _ line); [left; eauto|].
    destruct e; [right; eauto|].
    cbn [mr set_reader set_buf_reader parts_read].
    rewrite (proj2 (Z.eqb_neq _ _) Hp).
    match goal with |- context [bytes_eqb ?x ?y] => destruct (bytes_eqb x y) end;
      [|right; eauto].
    apply next_part_loop_expecting. unfold unread_of in *. cbn. rewrite Hu.
    destruct line; [rewrite He in Hl by reflexivity; cbn in Hl|cbn in Hl]; lia.
Qed.

(** X16 (termination of [next_part]).  Once a part has been handed out,
    [next_part] comes to an end on every stream, well formed or not: with
    fuel for the bytes left, it returns or raises. *)
Theorem next_part_terminates_once_started (fuel : nat) (w : World) :
  parts_read (mr w) <> 0%Z ->
  match current_part (mr w) with
  | Some h => exists p, heap w !! h = Some p /\ part_inv p /\
                        length (buf p) + length (unread_of w) + 2 < fuel
  | None => length (unread_of w) + 2 < fuel
  end ->
  returns_or_raises (next_part fuel w).
Proof.
  intros Hp Hcur. unfold next_part, close_current_part.
  destruct (current_part (mr w)) as [h|].
  - destruct Hcur as (p & Hh & Hinv & Hf).
    destruct (closed p) eqn:Hc.
    + right. destruct fuel as [|fuel]; [lia|].
      unfold Part_close. cbn [Part_close_loop]. unfold Part_read. rewrite Hh, Hc.
      cbn [bind]. eauto.
    + destruct (Part_close_returns fuel h w p Hh Hc Hinv ltac:(lia)) as (w1 & -> & Hm & Hl).
      cbn [bind]. apply next_part_loop_returns; [|lia].
      unfold same_but_source in Hm. rewrite Hm. exact Hp.
  - cbn [bind]. apply next_part_loop_returns; assumption.
Qed.

Lemma next_part_terminates_once_started_witness :
  returns_or_raises (next_part 200 scenario_a).
Proof.
  refine (next_part_terminates_once_started 200 scenario_a _ _).
  - vm_compute; discriminate.
  - exists (mkPart [] 0 [header_text (b "Content-Disposition: form-data; name=a")] false).
    split; [vm_compute; reflexivity|].
    split; [split; [vm_compute; discriminate | intros _; reflexivity]|].
    vm_compute; lia.
Defined.




(** Text without bytes above 7F is decoded byte by byte. *)
Lemma decode_utf8_ignore_ascii (l : bytes) :
  forallb (in_range 0 127) l = true ->
  decode_utf8_ignore l = map Byte.to_N l.
Proof.
  induction l as [|x l IH]; [reflexivity|].
  cbn [forallb]. intros [Hx Hl]%andb_true_iff.
  cbn [decode_utf8_ignore map]. rewrite Hx, (IH Hl). reflexivity.
Qed.



(** * The boundary of the response *)

Lemma str_startswith_app (p x : list ascii) : str_startswith (p ++ x) p = true.
Proof.
  induction p as [|c p IH]; [reflexivity|]. cbn. rewrite Ascii.eqb_refl. exact IH.
Qed.

Lemma str_startswith_inv (p x : list ascii) :
  str_startswith x p = true -> x = p ++ drop (length p) x.
Proof.
  revert x. induction p as [|c p IH]; intros x H; [reflexivity|].
  destruct x as [|d x]; [discriminate|]. cbn in H.
  apply andb_true_iff in H as [Hc Hp]. apply Ascii.eqb_eq in Hc. subst d.
  cbn. f_equal. apply IH, Hp.
Qed.

Lemma dot_star_split (x : list ascii) :
  exists rest, x = dot_star x ++ rest /\ one_line (dot_star x) = true /\
               (rest = [] \/ exists r, rest = newline :: r).
Proof.
  induction x as [|c x (rest & E & H1 & H2)].
  - exists []. cbn. auto.
  - cbn. destruct (Ascii.eqb c newline) eqn:Ec.
    + apply Ascii.eqb_eq in Ec. subst c. exists (newline :: x). cbn. eauto.
    + exists rest. cbn [one_line forallb]. rewrite Ec. cbn [negb andb].
      split; [cbn; f_equal; exact E | split; [exact H1 | exact H2]].
Qed.

Lemma dot_star_line (v rest : list ascii) :
  one_line v = true -> (rest = [] \/ exists r, rest = newline :: r) ->
  dot_star (v ++ rest) = v.
Proof.
  intros Hv Hr. induction v as [|c v IH].
  - cbn. destruct Hr as [-> | (r & ->)]; [reflexivity|].
    cbn. rewrite Ascii.eqb_refl. reflexivity.
  - cbn in Hv. apply andb_true_iff in Hv as [Hc Hv]. apply negb_true_iff in Hc.
    cbn. rewrite Hc. f_equal. apply IH, Hv.
Qed.

Lemma forallb_map_comp {A B : Type} (f : B -> bool) (g : A -> B) (l : list A) :
  forallb f (map g l) = forallb (fun a => f (g a)) l.
Proof. induction l as [|a l IH]; [reflexivity|]. cbn. rewrite IH. reflexivity. Qed.

Lemma no_match_before_S (n : nat) (c : ascii) (x : list ascii) :
  no_match_before (S n) (c :: x)
  = negb (str_startswith (c :: x) boundary_literal) && no_match_before n x.
Proof.
  unfold no_match_before. cbn [seq forallb drop]. f_equal.
  rewrite <- seq_shift, forallb_map_comp. reflexivity.
Qed.

Lemma re_search_boundary_skips (pre x : list ascii) :
  no_match_before (length pre) (pre ++ x) = true ->
  re_search_boundary (pre ++ x) = re_search_boundary x.
Proof.
  induction pre as [|c pre IH]; intros H; [reflexivity|].
  cbn [length app] in H. rewrite no_match_before_S in H.
  apply andb_true_iff in H as [H0 H]. apply negb_true_iff in H0.
  cbn [app re_search_boundary]. rewrite H0. apply IH, H.
Qed.

Lemma re_search_boundary_cases (x : list ascii) :
  match re_search_boundary x with
  | None => no_match_before (S (length x)) x = true
  | Some v =>
      exists pre rest,
        x = pre ++ boundary_literal ++ v ++ rest /\
        no_match_before (length pre) x = true /\
        one_line v = true /\
        (rest = [] \/ exists r, rest = newline :: r)
  end.
Proof.
  induction x as [|c x IH].
  - reflexivity.
  - cbn [re_search_boundary].
    destruct (str_startswith (c :: x) boundary_literal) eqn:E.
    + apply str_startswith_inv in E.
      destruct (dot_star_split (drop (length boundary_literal) (c :: x)))
        as (rest & E2 & H1 & H2).
      exists [], rest. split; [|split; [reflexivity|split; assumption]].
      cbn [app]. rewrite <- E2. exact E.
    + destruct (re_search_boundary x) as [v|].
      * destruct IH as (pre & rest & -> & Hn & H1 & H2).
        exists (c :: pre), rest. split; [reflexivity|].
        split; [|split; assumption].
        cbn [length]. rewrite no_match_before_S.
        cbn [app] in E. rewrite E. exact Hn.
      * cbn [length]. rewrite no_match_before_S, E. exact IH.
Qed.

(** X19 (the boundary found in [Content-Type]).  When the extraction of
    [parse_thermal_response] finds no boundary, the literal [boundary=]
    occurs nowhere in the header value; when it finds one, the value is what
    follows the first occurrence of the literal, up to the end of the
    line. *)
Theorem extract_boundary_spec (content_type : list ascii) :
  match extract_boundary content_type with
  | None => no_match_before (S (length content_type)) content_type = true
  | Some boundary =>
      exists pre rest,
        content_type = pre ++ boundary_literal ++ boundary ++ rest /\
        no_match_before (length pre) content_type = true /\
        one_line boundary = true /\
        (rest = [] \/ exists r, rest = newline :: r)
  end.
Proof.
  unfold extract_boundary.
  pose proof (re_search_boundary_cases content_type) as H.
  destruct (re_search_boundary content_type); exact H.
Qed.

(** X20 (the boundary is the rest of the line).  Whatever follows the first
    [boundary=] on its line is returned as the boundary: quotes and further
    parameters of the header are part of it. *)
Theorem extract_boundary_rest_of_line (pre value rest : list ascii) :
  no_match_before (length pre) (pre ++ boundary_literal ++ value ++ rest) = true ->
  one_line value = true ->
  (rest = [] \/ exists r, rest = newline :: r) ->
  extract_boundary (pre ++ boundary_literal ++ value ++ rest) = Some value.
Proof.
  intros Hn Hv Hr. unfold extract_boundary.
  rewrite (re_search_boundary_skips pre _ Hn).
  assert (E : re_search_boundary (boundary_literal ++ value ++ rest) = Some value).
  { destruct (boundary_literal ++ value ++ rest) eqn:Ex; [discriminate|].
    cbn [re_search_boundary]. rewrite <- Ex, str_startswith_app.
    rewrite drop_app_length. f_equal. apply dot_star_line; assumption. }
  rewrite E. reflexivity.
Qed.

Lemma extract_boundary_rest_of_line_witness :
  extract_boundary (chars "multipart/form-data; boundary=frame; charset=utf-8")
  = Some (chars "frame; charset=utf-8").
Proof.
  refine (extract_boundary_rest_of_line (chars "multipart/form-data; ")
            (chars "frame; charset=utf-8") [] _ _ _).
  - vm_compute; reflexivity.
  - vm_compute; reflexivity.
  - left; reflexivity.
Defined.

(** * The residual buffer *)

(** X21 ([_Buff.read]).  [read] splits the buffer: the bytes returned
    followed by the bytes kept are the buffer, for every argument.
    [read(k)] returns the first [k] bytes, and [read(-k)] with [k > 0]
    returns all but the last [k] bytes. *)
Theorem Buff_read_splits (n : option Z) (k : nat) (buf : bytes) :
  fst (Buff.read n buf) ++ snd (Buff.read n buf) = buf /\
  Buff.read (Some (Z.of_nat k)) buf = (take k buf, drop k buf) /\
  Buff.read (Some (- Z.of_nat (S k))%Z) buf
  = (take (length buf - S k) buf, drop (length buf - S k) buf).
Proof.
  split; [|split].
  - destruct n as [n|]; cbn; [apply slice_to_from | apply app_nil_r].
  - cbn. rewrite slice_to_nat, slice_from_nat. reflexivity.
  - cbn [Buff.read]. unfold slice_to, slice_from, py_bound.
    destruct (Z.ltb_spec (- Z.of_nat (S k)) 0) as [Hk|Hk]; [|lia].
    assert (E : Z.to_nat (Z.max 0 (Z.of_nat (length buf) + - Z.of_nat (S k)))
                = length buf - S k).
    { destruct (Z.max_spec 0 (Z.of_nat (length buf) + - Z.of_nat (S k)))
        as [[? ->] | [? ->]]; lia. }
    rewrite E. reflexivity.
Qed.

(** X22 ([MultipartReader.__init__]).  The slices taken by the constructor
    are the five tokens of the wire format, for every boundary, the empty
    one included; the reader starts with nothing consumed, no part read and
    no current part. *)
Theorem init_slices_tokens (stream boundary : bytes) :
  let m := MultipartReader_init stream boundary in
  nl m = CRLF /\
  nl_dash_boundary m = CRLF ++ b "--" ++ boundary /\
  dash_boundary_dash m = b "--" ++ boundary ++ b "--" /\
  dash_boundary m = b "--" ++ boundary /\
  dash_boundary_nl m = b "--" ++ boundary ++ CRLF /\
  BufferedReader.unread (buf_reader m) = stream /\
  parts_read m = 0%Z /\ current_part m = None.
Proof.
  destruct (init_tokens stream boundary) as [H1 H2 H3 H4 H5].
  cbn zeta. rewrite H1, H2, H3, H4, H5. rewrite <- !app_assoc.
  repeat split; reflexivity.
Qed.
